(** * Console redirection of the ballistica bootstrap

    A shallow embedding of [_BAConsoleRedirect]
    (src/meta/bameta/python_embedded/bootstrap.py): the object installed as
    [sys.stdout] and [sys.stderr], which forwards every write to the real
    console and accumulates the written pieces into log lines.

    Calls on one redirect object are modelled one after the other: a [write],
    a [flush], an [isatty], or the owner thread running the next call that
    [_ba.pushcall] queued.  The object's fields, the queue of pushed calls and
    the record of the calls made to the collaborators form the [world]. *)

From Stdlib Require Import String Ascii List Bool Arith Lia ZArith.
Import ListNotations.
Open Scope string_scope.

(** ** Python values and exceptions *)

(** [write] is annotated [sval: Any]: besides [str] it can receive any object.
    A [str] is kept as the sequence of its UTF-8 bytes; a code point is
    U+000A exactly when its encoding is the single byte 10, so [endswith] and
    [[:-1]] on a string ending in a newline read the same on both views. *)
Inductive pyval : Type :=
  | VStr (s : string)
  | VBytes (b : string)
  | VInt (z : Z)
  | VNone.

Inductive exn : Type :=
  | AttributeError
  | TypeError
  | SinkError (tag : nat).

(** How a call ends: it returns, it raises, or it waits for ever on a
    [threading.Lock] that is never released. *)
Inductive outcome (A : Type) : Type :=
  | Ret (a : A)
  | Raise (e : exn)
  | Blocked.
Arguments Ret {A} a.
Arguments Raise {A} e.
Arguments Blocked {A}.

(** ** The [str] operations the class uses *)

Definition LF : ascii := "010"%char.

(** The literal ['\n']. *)
Definition nl : string := String LF EmptyString.

(** [s.endswith(suffix)] on [str]. *)
Definition str_endswith (s suffix : string) : bool :=
  let n := String.length s in
  let m := String.length suffix in
  (m <=? n)%nat && String.eqb (substring (n - m) m s) suffix.

(** [s[:-1]]. *)
Definition str_drop_last (s : string) : string :=
  substring 0 (String.length s - 1) s.

(** [''.join(bits)]: the items in order; a [TypeError] on an item that is
    not a [str]. *)
Fixpoint str_join (bits : list pyval) : outcome string :=
  match bits with
  | [] => Ret ""
  | VStr s :: rest =>
      match str_join rest with
      | Ret t => Ret (s ++ t)
      | Raise e => Raise e
      | Blocked => Blocked
      end
  | _ :: _ => Raise TypeError
  end.

(** [sval.endswith('\n')] on any object: [int] and [None] have no such
    attribute, and [bytes.endswith] refuses a [str] argument. *)
Definition py_endswith_nl (sval : pyval) : outcome bool :=
  match sval with
  | VStr s => Ret (str_endswith s nl)
  | VBytes _ => Raise TypeError
  | VInt _ | VNone => Raise AttributeError
  end.

Definition has_endswith (sval : pyval) : bool :=
  match sval with
  | VStr _ | VBytes _ => true
  | VInt _ | VNone => false
  end.

(** ** The world *)

(** Calls made to the collaborators, oldest first. *)
Inductive event : Type :=
  | EvCall (sval : pyval)                     (* self._call(sval) *)
  | EvLog (line : string) (to_stdout : bool)  (* _ba.log(line, to_stdout=...) *)
  | EvOriginalFlush                           (* self._original.flush() *)
  | EvOriginalIsatty.                         (* self._original.isatty() *)

(** A call handed to [_ba.pushcall]; the class only ever pushes its own
    bound [_shiplog]. *)
Record pushed : Type := mkPushed {
  from_other_thread : bool;
  suppress_other_thread_warning : bool
}.

Record world : Type := mkWorld {
  _linebits : list pyval;
  _pending_ship : bool;
  _lock : bool;             (* [true] while the lock is held *)
  queue : list pushed;      (* pushed calls the owner thread has not run yet *)
  trace : list event
}.

(** [__init__]. *)
Definition init : world :=
  {| _linebits := [];
     _pending_ship := false;
     _lock := false;
     queue := [];
     trace := [] |}.

Definition set_linebits (bits : list pyval) (w : world) : world :=
  {| _linebits := bits;
     _pending_ship := _pending_ship w;
     _lock := _lock w;
     queue := queue w;
     trace := trace w |}.

Definition set_lock (b : bool) (w : world) : world :=
  {| _linebits := _linebits w;
     _pending_ship := _pending_ship w;
     _lock := b;
     queue := queue w;
     trace := trace w |}.

Definition set_queue (q : list pushed) (w : world) : world :=
  {| _linebits := _linebits w;
     _pending_ship := _pending_ship w;
     _lock := _lock w;
     queue := q;
     trace := trace w |}.

Definition emit (e : event) (w : world) : world :=
  {| _linebits := _linebits w;
     _pending_ship := _pending_ship w;
     _lock := _lock w;
     queue := queue w;
     trace := trace w ++ [e] |}.

(** The lines handed to the log sink, with their flag, oldest first. *)
Fixpoint log_calls (t : list event) : list (string * bool) :=
  match t with
  | [] => []
  | EvLog line b :: t' => (line, b) :: log_calls t'
  | _ :: t' => log_calls t'
  end.

(** The values handed to the passthrough sink, oldest first. *)
Fixpoint passthrough_calls (t : list event) : list pyval :=
  match t with
  | [] => []
  | EvCall v :: t' => v :: passthrough_calls t'
  | _ :: t' => passthrough_calls t'
  end.

(** Nothing, or one line for the log sink, flagged [to_stdout=False]. *)
Definition at_most_one_log (new : list event) : Prop :=
  new = [] \/ exists line, new = [EvLog line false].

(** ** The monad of calls: state that survives an exception *)

Definition M (A : Type) : Type := world -> outcome A * world.

Definition ret {A} (a : A) : M A := fun w => (Ret a, w).

Definition bind {A B} (m : M A) (f : A -> M B) : M B :=
  fun w =>
    match m w with
    | (Ret a, w') => f a w'
    | (Raise e, w') => (Raise e, w')
    | (Blocked, w') => (Blocked, w')
    end.

Definition lift {A} (o : outcome A) : M A := fun w => (o, w).

Notation "x <- m ;; k" := (bind m (fun x => k))
  (at level 61, m at next level, right associativity).
Notation "m ;; k" := (bind m (fun _ => k))
  (at level 61, right associativity).

(** [with self._lock: body].  [threading.Lock] is not reentrant: acquiring
    it while held waits.  Leaving the block, by falling out, by [return] or
    by an exception, releases it. *)
Definition with_lock {A} (body : M A) : M A :=
  fun w =>
    if _lock w then (Blocked, w)
    else let '(r, w') := body (set_lock true w) in (r, set_lock false w').

(** ** The collaborators *)

(** What the class is given and calls: the passthrough [call], [_ba.log],
    and the [original] stream.  Each may raise; the class catches nothing. *)
Record collaborators : Type := mkCollaborators {
  call_raises : pyval -> option exn;
  log_raises : string -> bool -> option exn;
  original_flush_raises : option exn;
  original_isatty_result : outcome bool
}.

Definition raising (o : option exn) : outcome unit :=
  match o with
  | None => Ret tt
  | Some e => Raise e
  end.

Section Redirect.

Variable E : collaborators.

(** [self._call(sval)]. *)
Definition _call (sval : pyval) : M unit :=
  fun w => (raising (call_raises E sval), emit (EvCall sval) w).

(** [_ba.log(line, to_stdout=b)]. *)
Definition ba_log (line : string) (b : bool) : M unit :=
  fun w => (raising (log_raises E line b), emit (EvLog line b) w).

(** [_ba.pushcall(self._shiplog, from_other_thread=a,
    suppress_other_thread_warning=b)]: returns at once. *)
Definition ba_pushcall (a b : bool) : M unit :=
  fun w => (Ret tt, set_queue (queue w ++ [mkPushed a b]) w).

(** The block under the lock in [_shiplog].  [None] stands for its
    [return]. *)
Definition shiplog_locked : M (option string) :=
  fun w =>
    match str_join (_linebits w) with
    | Ret line =>
        if String.eqb line "" then (Ret None, w)
        else (Ret (Some line), set_linebits [] w)
    | Raise e => (Raise e, w)
    | Blocked => (Blocked, w)
    end.

Definition _shiplog : M unit :=
  r <- with_lock shiplog_locked ;;
  match r with
  | None => ret tt
  | Some line =>
      (* Log messages aren't expected to have trailing newlines. *)
      let line := if str_endswith line nl then str_drop_last line else line in
      ba_log line false
  end.

Definition write (sval : pyval) : M unit :=
  _call sval ;;
  with_lock (fun w => (Ret tt, set_linebits (_linebits w ++ [sval]) w)) ;;
  b <- lift (py_endswith_nl sval) ;;
  if b then _shiplog else ba_pushcall true true.

Definition flush : M unit :=
  fun w => (raising (original_flush_raises E), emit EvOriginalFlush w).

Definition isatty : M bool :=
  fun w => (original_isatty_result E, emit EvOriginalIsatty w).

(** The owner thread takes the oldest pushed call and runs it. *)
Definition run_pending : M unit :=
  fun w =>
    match queue w with
    | [] => (Ret tt, w)
    | _ :: q => _shiplog (set_queue q w)
    end.

(** [write(s1); write(s2); ...] by one caller, nothing in between; an
    exception ends the sequence. *)
Fixpoint writes (svals : list pyval) : M unit :=
  match svals with
  | [] => ret tt
  | sval :: rest => write sval ;; writes rest
  end.

(** The owner thread runs [n] pushed calls; an exception in one of them
    is the event loop's to report and does not stop the next. *)
Fixpoint drain (n : nat) (w : world) : world :=
  match n with
  | O => w
  | S n' => drain n' (snd (run_pending w))
  end.

(** Any call on the object, for statements about every use of it. *)
Inductive op : Type :=
  | OpWrite (sval : pyval)
  | OpFlush
  | OpIsatty
  | OpRunPending.

Definition step (o : op) (w : world) : world :=
  match o with
  | OpWrite sval => snd (write sval w)
  | OpFlush => snd (flush w)
  | OpIsatty => snd (isatty w)
  | OpRunPending => snd (run_pending w)
  end.

Definition run (ops : list op) (w : world) : world :=
  fold_left (fun w o => step o w) ops w.

End Redirect.

(** ** Notions of the specification

    The specification speaks of the concatenation of the texts written and
    of its terminator-delimited segments; these say what it means by them,
    for comparison with what the class ships. *)

(** The texts of several writes, put end to end. *)
Definition cat (svals : list string) : string := fold_right append "" svals.

(** Whether ['\n'] occurs in a string. *)
Fixpoint has_nl (s : string) : bool :=
  match s with
  | EmptyString => false
  | String c s' => Ascii.eqb c LF || has_nl s'
  end.

(** A text whose only ['\n'], if any, is its last character. *)
Definition nl_only_last (s : string) : bool := negb (has_nl (str_drop_last s)).

(** The segments of a text, each ended by a ['\n'] that is left out: what
    [text.split('\n')] gives without its last item, the piece after the last
    terminator (empty when the text ends in one). *)
Fixpoint segments (s : string) : list string :=
  match s with
  | EmptyString => []
  | String c s' =>
      if Ascii.eqb c LF then "" :: segments s'
      else match segments s' with
           | [] => []
           | seg :: rest => String c seg :: rest
           end
  end.

(** Collaborators that never raise. *)
Definition quiet : collaborators :=
  {| call_raises := fun _ => None;
     log_raises := fun _ _ => None;
     original_flush_raises := None;
     original_isatty_result := Ret true |}.

Definition sinks_return (E : collaborators) : Prop :=
  (forall v, call_raises E v = None) /\
  (forall line b, log_raises E line b = None).

(** ** Users of the redirect in the bootstrap *)

(** What [print(a, b, ...)] writes to [sys.stdout], with the default [sep] and
    [end]: the [str] of each object, a [' '] before each but the first, and
    ['\n'] at the end, one [write] for each.  The bootstrap prints its
    warnings this way once the redirects are installed, and the comment in
    [write] speaks of [print('foo', 123, 'bar')].  [args] are the objects'
    [str]s. *)
Fixpoint print_pieces (args : list string) : list string :=
  match args with
  | [] => []
  | [a] => [a]
  | a :: rest => a :: " " :: print_pieces rest
  end.

Definition print (E : collaborators) (args : list string) : M unit :=
  writes E (map VStr (print_pieces args ++ [nl])).

(** [' '.join(args)]. *)
Definition join_spaces (args : list string) : string := String.concat " " args.

(** Calls that hand [write] a [str], or are no [write]. *)
Definition str_op (o : op) : bool :=
  match o with
  | OpWrite (VStr _) => true
  | OpWrite _ => false
  | _ => true
  end.

(** The texts written by a sequence of calls, in order. *)
Fixpoint texts_written (ops : list op) : list string :=
  match ops with
  | [] => []
  | OpWrite (VStr s) :: rest => s :: texts_written rest
  | _ :: rest => texts_written rest
  end.

(** The values written by a sequence of calls, in order. *)
Fixpoint values_written (ops : list op) : list pyval :=
  match ops with
  | [] => []
  | OpWrite v :: rest => v :: values_written rest
  | _ :: rest => values_written rest
  end.

(** A line as the log sink received it, against the text it was cut from:
    the same, or one ['\n'] shorter. *)
Definition shipped_from (raw line : string) : Prop :=
  raw = line \/ raw = line ++ nl.

(** The texts written so far are the lines shipped so far, each with the
    newline it may have lost, followed by the text that is pending. *)
Definition conserved (written : string) (w : world) : Prop :=
  exists raw p,
    str_join (_linebits w) = Ret p /\
    Forall2 shipped_from raw (map fst (log_calls (trace w))) /\
    written = cat raw ++ p.

(** The buffer can be joined, and if text is pending a pushed flush is
    waiting. *)
Definition settled (w : world) : Prop :=
  exists p, str_join (_linebits w) = Ret p /\ (p = "" \/ queue w <> []).

(** The three entries of [_ba.env()] the bootstrap reads. *)
Record ba_env : Type := mkEnv {
  python_directory_user : string;
  python_directory_app : string;
  python_directory_app_site : string
}.

(** [sys.path.insert(0, user); sys.path.append(app);
    sys.path.append(app_site)]. *)
Definition setup_sys_path (env : ba_env) (path : list string) : list string :=
  let path := python_directory_user env :: path in
  let path := (path ++ [python_directory_app env])%list in
  (path ++ [python_directory_app_site env])%list.

(** The entry of [sys.path] an import is served from: the first one, in
    order, that provides the module. *)
Definition served_from (provides : string -> bool) (path : list string)
  : option string :=
  find provides path.

(** * Building Python for the platforms

    Parts of tools/efrotools/pybuild.py.  [run], [readfile], [writefile] and
    [replace_one] come from the [efrotools] package, whose source is not at
    hand: the shell and the files are left out, and [replace_one] is a
    parameter that turns a text into a text or raises. *)

Module PyBuild.

Inductive error : Type :=
  | ValueError                    (* [list.remove(x)]: [x] not in the list *)
  | KeyError (key : string)       (* [d[key]]: no such key *)
  | RuntimeError (msg : string)
  | Exception (msg : string).

Inductive result (A : Type) : Type :=
  | Ok (a : A)
  | Err (e : error).
Arguments Ok {A} a.
Arguments Err {A} e.

Definition rbind {A B} (m : result A) (f : A -> result B) : result B :=
  match m with
  | Ok a => f a
  | Err e => Err e
  end.

Notation "x <~ m ;; k" := (rbind m (fun x => k))
  (at level 61, m at next level, right associativity).

Definition PY_VER_EXACT_ANDROID : string := "3.9.10".

(** [l.remove(x)]: without the first item equal to [x]. *)
Fixpoint list_remove (x : string) (l : list string) : result (list string) :=
  match l with
  | [] => Err ValueError
  | y :: l' =>
      if String.eqb y x then Ok l'
      else r <~ list_remove x l' ;; Ok (y :: r)
  end.

(** [d[key]] on a dict given by its items. *)
Fixpoint dict_get {A} (d : list (string * A)) (key : string) : result A :=
  match d with
  | [] => Err (KeyError key)
  | (k, v) :: d' => if String.eqb k key then Ok v else dict_get d' key
  end.

(** ** [_patch_setup_file], from the text read from [Modules/Setup] to the
    text written back to it *)

Record extras : Type := mkExtras {
  uuid_ex : string;
  zlib_ex : string;
  bz2_ex : string;
  ssl_ex : string;
  sqlite_ex : string;
  hash_ex : string;
  lzma_ex : string
}.

Definition platform_extras (platform : string) : result extras :=
  if String.eqb platform "android" then
    let prefix := "$(srcdir)/Android/sysroot/usr" in
    Ok {| uuid_ex := " -L" ++ prefix ++ "/lib -luuid";
          zlib_ex := " -I" ++ prefix ++ "/include -L" ++ prefix ++ "/lib -lz";
          bz2_ex :=
            " -I" ++ prefix ++ "/include -L" ++ prefix ++ "/lib -lbz2";
          ssl_ex :=
            " -DUSE_SSL -I" ++ prefix ++ "/include -L" ++ prefix
            ++ "/lib -lssl -lcrypto";
          sqlite_ex := " -I" ++ prefix ++ "/include -L" ++ prefix ++ "/lib";
          hash_ex := " -DUSE_SSL -lssl -lcrypto";
          lzma_ex := " -llzma" |}
  else if String.eqb platform "apple" then
    Ok {| uuid_ex := "";
          zlib_ex := " -I$(prefix)/include -lz";
          bz2_ex :=
            " -I$(srcdir)/../Support/BZip2/Headers"
            ++ " -L$(srcdir)/../Support/BZip2 -lbzip2";
          ssl_ex :=
            " -I$(srcdir)/../Support/OpenSSL/Headers"
            ++ " -L$(srcdir)/../Support/OpenSSL -lOpenSSL -DUSE_SSL";
          sqlite_ex := " -I$(srcdir)/Modules/_sqlite";
          hash_ex :=
            " -I$(srcdir)/../Support/OpenSSL/Headers"
            ++ " -L$(srcdir)/../Support/OpenSSL -lOpenSSL -DUSE_SSL";
          lzma_ex :=
            " -I$(srcdir)/../Support/XZ/Headers"
            ++ " -L$(srcdir)/../Support/XZ/ -lxz" |}
  else Err (RuntimeError ("Unknown platform " ++ platform)).

(** All the compiled modules there may be, to start with. *)
Definition cmodules : list string :=
  ["_asyncio"; "_bisect"; "_blake2"; "_codecs_cn"; "_codecs_hk";
   "_codecs_iso2022"; "_codecs_jp"; "_codecs_kr"; "_codecs_tw";
   "_contextvars"; "_crypt"; "_csv"; "_ctypes_test"; "_ctypes";
   "_curses_panel"; "_curses"; "_datetime"; "_decimal"; "_elementtree";
   "_heapq"; "_json"; "_lsprof"; "_lzma"; "_md5"; "_multibytecodec";
   "_multiprocessing"; "_opcode"; "_pickle"; "_posixsubprocess"; "_queue";
   "_random"; "_sha1"; "_sha3"; "_sha256"; "_sha512"; "_socket";
   "_statistics"; "_struct"; "_testbuffer"; "_testcapi";
   "_testimportmultiple"; "_testinternalcapi"; "_testmultiphase"; "_uuid";
   "_xxsubinterpreters"; "_xxtestfuzz"; "_zoneinfo"; "array"; "audioop";
   "binascii"; "cmath"; "fcntl"; "grp"; "math"; "mmap"; "ossaudiodev";
   "parser"; "pyexpat"; "resource"; "select"; "syslog"; "termios";
   "unicodedata"; "xxlimited"; "zlib"].

(** Modules uncommented for static compilation.  ([_md5] would be added
    under [if bool(False)].) *)
Definition enables : list string :=
  ["_asyncio"; "array"; "cmath"; "math"; "_contextvars"; "_struct"; "_random";
   "_elementtree"; "_pickle"; "_datetime"; "_zoneinfo"; "_bisect"; "_heapq";
   "_json"; "_statistics"; "unicodedata"; "fcntl"; "select"; "mmap"; "_csv";
   "_socket"; "_sha3"; "_blake2"; "binascii"; "_posixsubprocess"].

Definition disables : list string := ["xxsubtype"].

(** The double quote. *)
Definition dq : string := String "034"%char EmptyString.

Section PatchSetup.

Variable replace_one : string -> string -> string -> result string.

(** [for enable in enables: ftxt = replace_one(...);
    cmodules.remove(enable)]. *)
Fixpoint enable_loop (ens : list string) (ftxt : string) (cmods : list string)
  : result (string * list string) :=
  match ens with
  | [] => Ok (ftxt, cmods)
  | enable :: rest =>
      ftxt <~ replace_one ftxt ("#" ++ enable ++ " ") (enable ++ " ") ;;
      cmods <~ list_remove enable cmods ;;
      enable_loop rest ftxt cmods
  end.

(** [for disable in disables: ftxt = replace_one(...)]. *)
Fixpoint disable_loop (dis : list string) (ftxt : string) : result string :=
  match dis with
  | [] => Ok ftxt
  | disable :: rest =>
      ftxt <~ replace_one ftxt (nl ++ disable ++ " ") (nl ++ "#" ++ disable ++ " ") ;;
      disable_loop rest ftxt
  end.

(** The text [_patch_setup_file(platform, arch)] hands to
    [writefile('Modules/Setup', ...)], given the text it read there. *)
Definition patch_setup_text (platform arch ftxt : string) : result string :=
  ex <~ platform_extras platform ;;
  r <~ enable_loop enables ftxt cmodules ;;
  let '(ftxt, cmods) := r in
  ftxt <~ disable_loop disables ftxt ;;
  let ftxt := ftxt ++ nl ++ "# Additions by efrotools:" ++ nl in
  let ftxt := ftxt ++ "_uuid _uuidmodule.c" ++ uuid_ex ex ++ nl in
  cmods <~ list_remove "_uuid" cmods ;;
  let ftxt := ftxt ++ "zlib zlibmodule.c" ++ zlib_ex ex ++ nl in
  cmods <~ list_remove "zlib" cmods ;;
  let ftxt := ftxt ++ "_hashlib _hashopenssl.c" ++ hash_ex ex ++ nl in
  let ftxt := ftxt ++ "_lzma _lzmamodule.c" ++ lzma_ex ex ++ nl in
  cmods <~ list_remove "_lzma" cmods ;;
  let ftxt := ftxt ++ "_bz2 _bz2module.c" ++ bz2_ex ex ++ nl in
  let ftxt := ftxt ++ "_ssl _ssl.c" ++ ssl_ex ex ++ nl in
  let ftxt :=
    ftxt ++ "_sqlite3"
    ++ " _sqlite/cache.c"
    ++ " _sqlite/connection.c"
    ++ " _sqlite/cursor.c"
    ++ " _sqlite/microprotocols.c"
    ++ " _sqlite/module.c"
    ++ " _sqlite/prepare_protocol.c"
    ++ " _sqlite/row.c"
    ++ " _sqlite/statement.c"
    ++ " _sqlite/util.c"
    ++ sqlite_ex ex
    ++ " -DMODULE_NAME='\" ++ dq ++ "sqlite3\" ++ dq ++ "'"
    ++ " -DSQLITE_OMIT_LOAD_EXTENSION"
    ++ " -lsqlite3" ++ nl in
  let ftxt :=
    if String.eqb arch "mac" then
      ftxt ++ nl
      ++ "# efrotools: mac urllib needs this:" ++ nl
      ++ "_scproxy _scproxy.c "
      ++ "-framework SystemConfiguration "
      ++ "-framework CoreFoundation" ++ nl
    else ftxt in
  let remaining_disabled := String.concat " " cmods in
  Ok (ftxt ++ nl ++ "# Disabled by efrotools build:" ++ nl
      ++ "*disabled*" ++ nl
      ++ remaining_disabled ++ nl).

End PatchSetup.

(** [android_patch()] calls [_patch_setup_file('android', '?')]. *)
Definition android_patch_text
  (replace_one : string -> string -> string -> result string)
  (ftxt : string) : result string :=
  patch_setup_text replace_one "android" "?" ftxt.

(** ** Where the builds are made and where [gather] looks for them *)

(** [builddir] in [build_apple(arch, debug)]. *)
Definition build_apple_builddir (arch : string) (debug : bool) : string :=
  "build/python_apple_" ++ arch ++ (if debug then "_debug" else "").

(** [builddir] in [build_android(rootdir, arch, debug)]. *)
Definition build_android_builddir (arch : string) (debug : bool) : string :=
  "build/python_android_" ++ arch ++ (if debug then "_debug" else "").

(** The make target [build_apple] runs last, looked up by [arch]. *)
Definition apple_make_target (arch : string) : result string :=
  dict_get [("mac", "Python-macOS"); ("ios", "Python-iOS");
            ("tvos", "Python-tvOS")] arch.

(** In [gather], for one [buildtype] of ['debug'] and ['release']. *)
Definition bsuffix (buildtype : string) : string :=
  if String.eqb buildtype "debug" then "_debug" else "".

Definition apost2 : string :=
  "src/Python-" ++ PY_VER_EXACT_ANDROID ++ "/Android/sysroot".

Definition bases (buildtype : string) : list (string * string) :=
  [("mac", "build/python_apple_mac" ++ bsuffix buildtype ++ "/build/macOS");
   ("ios", "build/python_apple_ios" ++ bsuffix buildtype ++ "/build/iOS");
   ("tvos", "build/python_apple_tvos" ++ bsuffix buildtype ++ "/build/tvOS");
   ("android_arm",
    "build/python_android_arm" ++ bsuffix buildtype ++ "/build");
   ("android_arm64",
    "build/python_android_arm64" ++ bsuffix buildtype ++ "/build");
   ("android_x86",
    "build/python_android_x86" ++ bsuffix buildtype ++ "/build");
   ("android_x86_64",
    "build/python_android_x86_64" ++ bsuffix buildtype ++ "/build")].

Definition bases2 (buildtype : string) : list (string * string) :=
  [("android_arm",
    "build/python_android_arm" ++ bsuffix buildtype ++ "/" ++ apost2);
   ("android_arm64",
    "build/python_android_arm64" ++ bsuffix buildtype ++ "/" ++ apost2);
   ("android_x86",
    "build/python_android_x86" ++ bsuffix buildtype ++ "/" ++ apost2);
   ("android_x86_64",
    "build/python_android_x86_64" ++ bsuffix buildtype ++ "/" ++ apost2)].

End PyBuild.

(** ** Facts about [str] *)

Module Str.

Lemma append_nil_r (s : string) : s ++ "" = s.
Proof. induction s as [|c s IH]; simpl; [reflexivity | now rewrite IH]. Qed.

Lemma append_assoc (s t u : string) : (s ++ t) ++ u = s ++ (t ++ u).
Proof. induction s as [|c s IH]; simpl; [reflexivity | now rewrite IH]. Qed.

Lemma length_append (s t : string) :
  String.length (s ++ t) = String.length s + String.length t.
Proof. induction s as [|c s IH]; simpl; [reflexivity | now rewrite IH]. Qed.

Lemma append_eq_nil (s t : string) : s ++ t = "" -> s = "" /\ t = "".
Proof. destruct s; simpl; [auto | discriminate]. Qed.

Lemma substring_0_0 (s : string) : substring 0 0 s = "".
Proof. destruct s; reflexivity. Qed.

Lemma substring_prefix (s t : string) :
  substring 0 (String.length s) (s ++ t) = s.
Proof.
  induction s as [|c s IH]; simpl.
  - apply substring_0_0.
  - now rewrite IH.
Qed.

Lemma substring_suffix (s t : string) :
  substring (String.length s) (String.length t) (s ++ t) = t.
Proof.
  induction s as [|c s IH]; simpl; [|exact IH].
  induction t as [|d t IHt]; simpl; [reflexivity | now rewrite IHt].
Qed.

(** Cutting a string at position [k] loses nothing. *)
Lemma substring_split (s : string) :
  forall k, k <= String.length s ->
    s = substring 0 k s ++ substring k (String.length s - k) s.
Proof.
  induction s as [|c s IH]; intros k Hk; simpl in *.
  - now destruct k.
  - destruct k as [|k]; simpl.
    + f_equal. clear IH Hk.
      induction s as [|d s IHs]; simpl; [reflexivity | now rewrite <- IHs].
    + f_equal. apply IH. lia.
Qed.

End Str.

(** ['\n'] as a suffix. *)
Lemma str_endswith_app_nl (s : string) : str_endswith (s ++ nl) nl = true.
Proof.
  unfold str_endswith.
  rewrite Str.length_append. simpl String.length.
  replace (String.length s + 1 - 1) with (String.length s) by lia.
  replace (1 <=? String.length s + 1)%nat with true
    by (symmetry; apply Nat.leb_le; lia).
  change 1 with (String.length nl) at 1.
  rewrite Str.substring_suffix. apply String.eqb_refl.
Qed.

Lemma str_endswith_nl_inv (s : string) :
  str_endswith s nl = true -> exists l, s = l ++ nl.
Proof.
  unfold str_endswith. simpl String.length.
  intros H. apply andb_true_iff in H as [Hlen Heq].
  apply Nat.leb_le in Hlen. apply String.eqb_eq in Heq.
  exists (substring 0 (String.length s - 1) s).
  rewrite <- Heq.
  pose proof (Str.substring_split s (String.length s - 1)) as Hcut.
  replace (String.length s - (String.length s - 1)) with 1 in Hcut by lia.
  apply Hcut. lia.
Qed.

Lemma str_drop_last_app_nl (s : string) : str_drop_last (s ++ nl) = s.
Proof.
  unfold str_drop_last. rewrite Str.length_append. simpl String.length.
  replace (String.length s + 1 - 1) with (String.length s) by lia.
  apply Str.substring_prefix.
Qed.

(** A string is empty or has a last character. *)
Lemma str_snoc_cases (s : string) :
  s = "" \/ exists l c, s = l ++ String c "".
Proof.
  induction s as [|c s IH]; [now left | right].
  destruct IH as [-> | (l & d & ->)].
  - now exists "", c.
  - now exists (String c l), d.
Qed.

Lemma str_endswith_snoc (l : string) (c : ascii) :
  str_endswith (l ++ String c "") nl = Ascii.eqb c LF.
Proof.
  unfold str_endswith.
  rewrite Str.length_append. simpl String.length.
  replace (String.length l + 1 - 1) with (String.length l) by lia.
  replace (1 <=? String.length l + 1)%nat with true
    by (symmetry; apply Nat.leb_le; lia).
  change 1 with (String.length (String c "")) at 1.
  rewrite Str.substring_suffix. simpl.
  now destruct (Ascii.eqb c LF).
Qed.

Lemma str_drop_last_snoc (l : string) (c : ascii) :
  str_drop_last (l ++ String c "") = l.
Proof.
  unfold str_drop_last. rewrite Str.length_append. simpl String.length.
  replace (String.length l + 1 - 1) with (String.length l) by lia.
  apply Str.substring_prefix.
Qed.

Lemma has_nl_app (s t : string) : has_nl (s ++ t) = has_nl s || has_nl t.
Proof.
  induction s as [|c s IH]; simpl; [reflexivity|].
  now rewrite IH, orb_assoc.
Qed.

(** A suffix that is not empty decides whether a string ends in ['\n']. *)
Lemma str_endswith_app (s t : string) :
  t <> "" -> str_endswith (s ++ t) nl = str_endswith t nl.
Proof.
  intros Ht. destruct (str_snoc_cases t) as [-> | (l & c & ->)]; [easy|].
  rewrite <- Str.append_assoc. now rewrite !str_endswith_snoc.
Qed.

Lemma str_endswith_nl_free (s : string) :
  has_nl s = false -> str_endswith s nl = false.
Proof.
  intros H. destruct (str_snoc_cases s) as [-> | (l & c & ->)]; [reflexivity|].
  rewrite str_endswith_snoc. rewrite has_nl_app in H. simpl in H.
  apply orb_false_iff in H as [_ H]. now apply orb_false_iff in H as [H _].
Qed.

Lemma nl_only_last_cases (s : string) :
  nl_only_last s = true ->
  (str_endswith s nl = false /\ has_nl s = false) \/
  (exists l, s = l ++ nl /\ has_nl l = false).
Proof.
  unfold nl_only_last. intros H. apply negb_true_iff in H.
  destruct (str_snoc_cases s) as [-> | (l & c & ->)]; [now left|].
  rewrite str_drop_last_snoc in H.
  destruct (Ascii.eqb c LF) eqn:Hc.
  - right. apply Ascii.eqb_eq in Hc. subst c. now exists l.
  - left. rewrite str_endswith_snoc, has_nl_app, H. simpl. now rewrite Hc.
Qed.

Lemma cat_not_endswith_nl (svals : list string) :
  Forall (fun s => str_endswith s nl = false) svals ->
  str_endswith (cat svals) nl = false.
Proof.
  induction 1 as [|s svals Hs _ IH]; [reflexivity|]. simpl.
  destruct (string_dec (cat svals) "") as [-> | Hne].
  - now rewrite Str.append_nil_r.
  - now rewrite str_endswith_app.
Qed.

(** ** [str.join] on the buffer *)

Lemma str_join_app (bits : list pyval) (s : string) :
  str_join (bits ++ [VStr s]) =
    match str_join bits with
    | Ret t => Ret (t ++ s)
    | Raise e => Raise e
    | Blocked => Blocked
    end.
Proof.
  induction bits as [|[x| | |] bits IH]; simpl; try reflexivity.
  - now rewrite Str.append_nil_r.
  - rewrite IH. destruct (str_join bits); try reflexivity.
    now rewrite Str.append_assoc.
Qed.

Lemma str_join_strs (svals : list string) :
  str_join (map VStr svals) = Ret (cat svals).
Proof.
  induction svals as [|s svals IH]; simpl; [reflexivity | now rewrite IH].
Qed.

Lemma str_join_app_strs (bits : list pyval) (svals : list string) (p : string) :
  str_join bits = Ret p ->
  str_join (bits ++ map VStr svals) = Ret (p ++ cat svals).
Proof.
  revert p. induction bits as [|[x| | |] bits IH]; simpl; intros p H;
    try discriminate.
  - injection H as <-. apply str_join_strs.
  - destruct (str_join bits) as [t| |]; try discriminate.
    injection H as <-. rewrite (IH t eq_refl).
    now rewrite Str.append_assoc.
Qed.

(** A buffer holding something that is not a [str] cannot be joined. *)
Lemma str_join_non_str (bits : list pyval) (v : pyval) :
  (forall s, v <> VStr s) ->
  exists e, str_join (bits ++ [v]) = Raise e.
Proof.
  intros Hv. induction bits as [|[x| | |] bits [e IH]]; simpl;
    try (now exists TypeError).
  - destruct v; try (now exists TypeError). now destruct (Hv s).
  - rewrite IH. now exists e.
Qed.

(** ** What one call does, as one equation each *)

Section Execution.

Variable E : collaborators.

Lemma log_calls_app (t u : list event) :
  log_calls (t ++ u) = (log_calls t ++ log_calls u)%list.
Proof.
  induction t as [|[v|line b| |] t IH]; simpl; rewrite ?IH; reflexivity.
Qed.

Lemma passthrough_calls_app (t u : list event) :
  passthrough_calls (t ++ u) =
    (passthrough_calls t ++ passthrough_calls u)%list.
Proof.
  induction t as [|[v|line b| |] t IH]; simpl; rewrite ?IH; reflexivity.
Qed.

(** [_shiplog], with the lock taken and given back folded away. *)
Lemma shiplog_unfold (w : world) :
  _shiplog E w =
    if _lock w then (Blocked, w)
    else match str_join (_linebits w) with
         | Ret line =>
             if String.eqb line "" then (Ret tt, w)
             else
               let shipped :=
                 if str_endswith line nl then str_drop_last line else line in
               (raising (log_raises E shipped false),
                emit (EvLog shipped false) (set_linebits [] w))
         | Raise e => (Raise e, w)
         | Blocked => (Blocked, w)
         end.
Proof.
  destruct w as [bits ps lk q t].
  unfold _shiplog, bind, with_lock, shiplog_locked; simpl.
  destruct lk; [reflexivity|].
  destruct (str_join bits) as [line|e|]; try reflexivity.
  destruct (String.eqb line ""); reflexivity.
Qed.

(** [write], likewise. *)
Lemma write_unfold (sval : pyval) (w : world) :
  write E sval w =
    let w0 := emit (EvCall sval) w in
    match call_raises E sval with
    | Some e => (Raise e, w0)
    | None =>
        if _lock w then (Blocked, w0)
        else
          let w1 := set_linebits (_linebits w ++ [sval]) w0 in
          match py_endswith_nl sval with
          | Ret true => _shiplog E w1
          | Ret false =>
              (Ret tt, set_queue (queue w ++ [mkPushed true true]) w1)
          | Raise e => (Raise e, w1)
          | Blocked => (Blocked, w1)
          end
    end.
Proof.
  destruct w as [bits ps lk q t].
  unfold write, bind, _call, with_lock, lift, ba_pushcall; simpl.
  destruct (call_raises E sval); [reflexivity|]; simpl.
  destruct lk; [reflexivity|]; simpl.
  destruct (py_endswith_nl sval) as [[|]|e|]; reflexivity.
Qed.

(** A flush that finds no text leaves everything as it was. *)
Lemma shiplog_idle (w : world) :
  _lock w = false -> str_join (_linebits w) = Ret "" ->
  _shiplog E w = (Ret tt, w).
Proof.
  intros Hl Hj. rewrite shiplog_unfold, Hl, Hj. reflexivity.
Qed.

(** A flush that finds text ships it and empties the buffer. *)
Lemma shiplog_ships (w : world) (line : string) :
  _lock w = false -> str_join (_linebits w) = Ret line -> line <> "" ->
  _shiplog E w =
    (raising (log_raises E
                (if str_endswith line nl then str_drop_last line else line)
                false),
     emit (EvLog (if str_endswith line nl then str_drop_last line else line)
                 false)
          (set_linebits [] w)).
Proof.
  intros Hl Hj Hne. rewrite shiplog_unfold, Hl, Hj.
  apply String.eqb_neq in Hne. now rewrite Hne.
Qed.

(** Pushed calls that find no text only leave the queue. *)
Lemma drain_idle (n : nat) :
  forall w, _lock w = false -> str_join (_linebits w) = Ret "" ->
    drain E n w = set_queue (skipn n (queue w)) w.
Proof.
  induction n as [|n IH]; intros w Hl Hj; simpl.
  - now destruct w.
  - unfold run_pending. destruct (queue w) as [|c q] eqn:Hq.
    + simpl. rewrite IH by assumption. rewrite Hq, skipn_nil.
      destruct w; simpl in *; now subst.
    + rewrite shiplog_idle by assumption. simpl.
      now rewrite IH by assumption.
Qed.

End Execution.

(** ** What a call adds to the record of collaborator calls *)

(** The call added nothing to the record. *)
Ltac adds_nothing :=
  exists []; simpl; rewrite ?app_nil_r; split; [reflexivity | now left].

Lemma shiplog_trace (E : collaborators) (w : world) :
  exists new,
    trace (snd (_shiplog E w)) = (trace w ++ new)%list /\ at_most_one_log new.
Proof.
  rewrite shiplog_unfold.
  destruct (_lock w); [adds_nothing|].
  destruct (str_join (_linebits w)) as [line|e|]; try adds_nothing.
  destruct (String.eqb line ""); [adds_nothing|].
  eexists. simpl. split; [reflexivity | right; eexists; reflexivity].
Qed.

Lemma write_trace (E : collaborators) (sval : pyval) (w : world) :
  exists new,
    trace (snd (write E sval w)) = (trace w ++ EvCall sval :: new)%list /\
    at_most_one_log new.
Proof.
  rewrite write_unfold. cbv zeta.
  destruct (call_raises E sval); [adds_nothing|].
  destruct (_lock w); [adds_nothing|].
  destruct (py_endswith_nl sval) as [[|]|e|]; try adds_nothing.
  destruct (shiplog_trace E
              (set_linebits (_linebits w ++ [sval]) (emit (EvCall sval) w)))
    as (new & Ht & Hnew).
  exists new. rewrite Ht. simpl. now rewrite <- app_assoc.
Qed.

Lemma run_pending_trace (E : collaborators) (w : world) :
  exists new,
    trace (snd (run_pending E w)) = (trace w ++ new)%list /\
    at_most_one_log new.
Proof.
  unfold run_pending. destruct (queue w) as [|c q]; [adds_nothing|].
  apply (shiplog_trace E (set_queue q w)).
Qed.

Lemma at_most_one_log_flags (new : list event) :
  at_most_one_log new -> Forall (fun c => snd c = false) (log_calls new).
Proof.
  intros [-> | [line ->]]; simpl; repeat constructor.
Qed.

(** The lock is free between calls. *)
Lemma shiplog_lock (E : collaborators) (w : world) :
  _lock (snd (_shiplog E w)) = _lock w.
Proof.
  rewrite shiplog_unfold. destruct (_lock w) eqn:Hl; [exact Hl|].
  destruct (str_join (_linebits w)) as [line|e|]; try exact Hl.
  destruct (String.eqb line ""); exact Hl.
Qed.

Lemma write_lock (E : collaborators) (sval : pyval) (w : world) :
  _lock (snd (write E sval w)) = _lock w.
Proof.
  rewrite write_unfold. cbv zeta.
  destruct (call_raises E sval); [reflexivity|].
  destruct (_lock w) eqn:Hl; [exact Hl|].
  destruct (py_endswith_nl sval) as [[|]|e|]; try exact Hl.
  rewrite shiplog_lock. exact Hl.
Qed.

Lemma step_lock (E : collaborators) (o : op) (w : world) :
  _lock (step E o w) = _lock w.
Proof.
  destruct o; simpl.
  - apply write_lock.
  - reflexivity.
  - reflexivity.
  - unfold run_pending. destruct (queue w); [reflexivity|].
    now rewrite shiplog_lock.
Qed.

Lemma run_lock_free (E : collaborators) (ops : list op) :
  _lock (run E ops init) = false.
Proof.
  unfold run. rewrite <- fold_left_rev_right.
  induction (rev ops) as [|o l IH]; simpl; [reflexivity|].
  now rewrite step_lock.
Qed.

(** [_pending_ship] is written by [__init__] alone. *)
Lemma shiplog_pending_ship (E : collaborators) (w : world) :
  _pending_ship (snd (_shiplog E w)) = _pending_ship w.
Proof.
  rewrite shiplog_unfold. destruct (_lock w); [reflexivity|].
  destruct (str_join (_linebits w)) as [line|e|]; try reflexivity.
  destruct (String.eqb line ""); reflexivity.
Qed.

Lemma write_pending_ship (E : collaborators) (sval : pyval) (w : world) :
  _pending_ship (snd (write E sval w)) = _pending_ship w.
Proof.
  rewrite write_unfold. cbv zeta.
  destruct (call_raises E sval); [reflexivity|].
  destruct (_lock w); [reflexivity|].
  destruct (py_endswith_nl sval) as [[|]|e|]; try reflexivity.
  now rewrite shiplog_pending_ship.
Qed.

Lemma step_pending_ship (E : collaborators) (o : op) (w : world) :
  _pending_ship (step E o w) = _pending_ship w.
Proof.
  destruct o; simpl.
  - apply write_pending_ship.
  - reflexivity.
  - reflexivity.
  - unfold run_pending. destruct (queue w); [reflexivity|].
    now rewrite shiplog_pending_ship.
Qed.

Lemma run_pending_ship (E : collaborators) (ops : list op) (w : world) :
  _pending_ship (run E ops w) = _pending_ship w.
Proof.
  unfold run. rewrite <- fold_left_rev_right.
  induction (rev ops) as [|o l IH]; simpl; [reflexivity|].
  now rewrite step_pending_ship.
Qed.

(** Collaborators that behave alike give the same runs. *)
Lemma shiplog_ext (E E' : collaborators) (w : world) :
  (forall line b, log_raises E line b = log_raises E' line b) ->
  _shiplog E w = _shiplog E' w.
Proof.
  intros Hlog. rewrite !shiplog_unfold.
  destruct (_lock w); [reflexivity|].
  destruct (str_join (_linebits w)) as [line|e|]; try reflexivity.
  destruct (String.eqb line ""); [reflexivity|]. cbv zeta. now rewrite Hlog.
Qed.

Lemma write_ext (E E' : collaborators) (sval : pyval) (w : world) :
  (forall v, call_raises E v = call_raises E' v) ->
  (forall line b, log_raises E line b = log_raises E' line b) ->
  write E sval w = write E' sval w.
Proof.
  intros Hcall Hlog. rewrite !write_unfold. cbv zeta. rewrite Hcall.
  destruct (call_raises E' sval); [reflexivity|].
  destruct (_lock w); [reflexivity|].
  destruct (py_endswith_nl sval) as [[|]|e|]; try reflexivity.
  now apply shiplog_ext.
Qed.

Lemma writes_ext (E E' : collaborators) (svals : list pyval) :
  (forall v, call_raises E v = call_raises E' v) ->
  (forall line b, log_raises E line b = log_raises E' line b) ->
  forall w, writes E svals w = writes E' svals w.
Proof.
  intros Hcall Hlog.
  induction svals as [|sval svals IH]; intros w; simpl; [reflexivity|].
  unfold bind. rewrite (write_ext E E') by assumption.
  destruct (write E' sval w) as [[[]|e|] w']; [apply IH | reflexivity..].
Qed.

Lemma quiet_returns : sinks_return quiet.
Proof. split; intros; reflexivity. Qed.

Lemma writes_quiet (E : collaborators) (svals : list pyval) (w : world) :
  sinks_return E -> writes E svals w = writes quiet svals w.
Proof.
  intros [Hcall Hlog]. apply writes_ext; intros.
  - now rewrite Hcall.
  - now rewrite Hlog.
Qed.

(** * The claims *)

(** ** Worked examples *)

(** C4.  Called from a fresh object with sinks that return,
    [write("a"); write("b"); write("c\n")] ends normally with exactly one
    line handed to the log sink, ["abc"]; and [write("x\n"); write("y\n")]
    with exactly two, ["x"] then ["y"].  The flushes the first sequence
    pushed for ["a"] and ["b"] add nothing when the owner thread runs
    them. *)
Theorem write_examples (E : collaborators) (HE : sinks_return E) :
  (let r := writes E [VStr "a"; VStr "b"; VStr ("c" ++ nl)] init in
   fst r = Ret tt /\
   log_calls (trace (snd r)) = [("abc", false)] /\
   forall n, log_calls (trace (drain E n (snd r))) = [("abc", false)]) /\
  (let r := writes E [VStr ("x" ++ nl); VStr ("y" ++ nl)] init in
   fst r = Ret tt /\
   log_calls (trace (snd r)) = [("x", false); ("y", false)] /\
   forall n, log_calls (trace (drain E n (snd r))) =
             [("x", false); ("y", false)]).
Proof.
  cbv zeta. rewrite !(writes_quiet E) by assumption.
  split; (split; [reflexivity | split; [reflexivity|]]); intros n.
  - rewrite drain_idle by reflexivity. reflexivity.
  - rewrite drain_idle by reflexivity. reflexivity.
Qed.

Lemma write_examples_witness :
  sinks_return quiet /\
  log_calls (trace (snd (writes quiet [VStr "a"; VStr "b"; VStr ("c" ++ nl)]
                           init))) = [("abc", false)].
Proof.
  split; [exact quiet_returns|].
  exact (proj1 (proj2 (proj1 (write_examples quiet quiet_returns)))).
Defined.

(** ** [flush] and [isatty] *)

(** C9.  [flush()] calls the original stream's [flush] and nothing else:
    it ends as that call ends, and the buffer, the flag, the lock, the
    pushed calls and the lines handed to the log sink are as before.
    [isatty()] gives what the original stream's [isatty] gives. *)
Theorem flush_isatty_delegate (E : collaborators) (w : world) :
  (fst (flush E w) = raising (original_flush_raises E) /\
   trace (snd (flush E w)) = (trace w ++ [EvOriginalFlush])%list /\
   _linebits (snd (flush E w)) = _linebits w /\
   _pending_ship (snd (flush E w)) = _pending_ship w /\
   _lock (snd (flush E w)) = _lock w /\
   queue (snd (flush E w)) = queue w /\
   log_calls (trace (snd (flush E w))) = log_calls (trace w)) /\
  (fst (isatty E w) = original_isatty_result E /\
   trace (snd (isatty E w)) = (trace w ++ [EvOriginalIsatty])%list /\
   _linebits (snd (isatty E w)) = _linebits w /\
   _pending_ship (snd (isatty E w)) = _pending_ship w /\
   _lock (snd (isatty E w)) = _lock w /\
   queue (snd (isatty E w)) = queue w).
Proof.
  unfold flush, isatty; simpl.
  rewrite log_calls_app; simpl. rewrite app_nil_r.
  repeat split; reflexivity.
Qed.

(** ** The flag handed to the log sink *)

Lemma step_log_flags (E : collaborators) (o : op) (w : world) :
  Forall (fun c => snd c = false) (log_calls (trace w)) ->
  Forall (fun c => snd c = false) (log_calls (trace (step E o w))).
Proof.
  intros Hw. destruct o as [sval| | |]; simpl.
  - destruct (write_trace E sval w) as (new & -> & Hnew).
    rewrite log_calls_app. apply Forall_app. split; [exact Hw|].
    simpl. now apply at_most_one_log_flags.
  - rewrite log_calls_app. simpl. now rewrite app_nil_r.
  - rewrite log_calls_app. simpl. now rewrite app_nil_r.
  - destruct (run_pending_trace E w) as (new & -> & Hnew).
    rewrite log_calls_app. apply Forall_app. split; [exact Hw|].
    now apply at_most_one_log_flags.
Qed.

(** C8.  Whatever is done with the object from its creation on (writes of
    any value, flushes, [isatty], pushed calls run by the owner thread,
    with sinks that return or raise), every call of the log sink carries
    [to_stdout=False]. *)
Theorem log_never_to_stdout (E : collaborators) (ops : list op) :
  Forall (fun c => snd c = false) (log_calls (trace (run E ops init))).
Proof.
  unfold run. rewrite <- fold_left_rev_right.
  induction (rev ops) as [|o l IH]; simpl.
  - constructor.
  - apply step_log_flags. exact IH.
Qed.

(** ** Malformed input *)

(** C10.  A value without [endswith] (an [int], [None]) written while the
    passthrough callback returns makes [write] raise [AttributeError], and
    by then the callback has been called with the value and the value sits
    at the end of the buffer: the lock is free again, nothing was pushed or
    shipped, and the buffer can no longer be joined. *)
Theorem write_non_string_not_atomic
  (E : collaborators) (w : world) (sval : pyval) :
  has_endswith sval = false ->
  call_raises E sval = None ->
  _lock w = false ->
  fst (write E sval w) = Raise AttributeError /\
  trace (snd (write E sval w)) = (trace w ++ [EvCall sval])%list /\
  _linebits (snd (write E sval w)) = (_linebits w ++ [sval])%list /\
  _lock (snd (write E sval w)) = false /\
  queue (snd (write E sval w)) = queue w /\
  exists e, str_join (_linebits (snd (write E sval w))) = Raise e.
Proof.
  intros Hv Hcall Hl. rewrite write_unfold, Hcall, Hl. cbv zeta.
  assert (Hend : py_endswith_nl sval = Raise AttributeError)
    by (destruct sval; simpl in *; congruence).
  rewrite Hend. simpl.
  split; [reflexivity|]. split; [reflexivity|]. split; [reflexivity|].
  split; [exact Hl|]. split; [reflexivity|].
  apply str_join_non_str. intros s ->. discriminate.
Qed.

Lemma write_non_string_not_atomic_witness :
  has_endswith (VInt 3) = false /\
  fst (write quiet (VInt 3) init) = Raise AttributeError /\
  _linebits (snd (write quiet (VInt 3) init)) = [VInt 3].
Proof.
  pose proof (write_non_string_not_atomic quiet init (VInt 3)
                eq_refl eq_refl eq_refl) as (Hr & _ & Hb & _).
  repeat split; assumption.
Defined.

(** ** The passthrough comes first *)

(** C7.  [write(text)] on any state, whatever the sinks do: the first
    thing added to the record of collaborator calls is the passthrough
    call with [text] itself; at most one log line follows it and no second
    passthrough call; the passthrough call is recorded however the write
    ends.  When the passthrough raises, the write ends there with the
    buffer, the lock and the queue as they were, so nothing of the
    buffering had run when the passthrough was called. *)
Theorem write_passthrough_first
  (E : collaborators) (w : world) (text : string) :
  (exists new,
     trace (snd (write E (VStr text) w)) =
       (trace w ++ EvCall (VStr text) :: new)%list /\
     at_most_one_log new /\
     passthrough_calls (trace (snd (write E (VStr text) w))) =
       (passthrough_calls (trace w) ++ [VStr text])%list) /\
  (forall e, call_raises E (VStr text) = Some e ->
     write E (VStr text) w = (Raise e, emit (EvCall (VStr text)) w)).
Proof.
  split.
  - destruct (write_trace E (VStr text) w) as (new & Ht & Hnew).
    exists new. split; [exact Ht | split; [exact Hnew|]].
    rewrite Ht, passthrough_calls_app. simpl.
    now destruct Hnew as [-> | [line ->]].
  - intros e He. rewrite write_unfold, He. reflexivity.
Qed.

(** ** The line that is shipped *)

(** C6.  A flush that finds text hands the log sink one line: the pieces
    of the buffer joined in order, without its last character when that is
    a newline, and as it is otherwise.  Of two newlines at the end only
    one goes, so the line still ends in one. *)
Theorem shipped_line_strips_one_terminator
  (E : collaborators) (w : world) (line : string) :
  _lock w = false ->
  str_join (_linebits w) = Ret line ->
  line <> "" ->
  exists shipped,
    trace (snd (_shiplog E w)) = (trace w ++ [EvLog shipped false])%list /\
    (forall l, line = l ++ nl -> shipped = l) /\
    ((forall l, line <> l ++ nl) -> shipped = line) /\
    (forall l, line = l ++ nl ++ nl ->
       shipped = l ++ nl /\ str_endswith shipped nl = true).
Proof.
  intros Hl Hj Hne.
  rewrite (shiplog_ships E w line Hl Hj Hne).
  eexists. split; [reflexivity|].
  split; [|split].
  - intros l ->. now rewrite str_endswith_app_nl, str_drop_last_app_nl.
  - intros Hno. destruct (str_endswith line nl) eqn:Hend; [|reflexivity].
    apply str_endswith_nl_inv in Hend as [l ->]. now destruct (Hno l).
  - intros l ->. rewrite <- Str.append_assoc.
    rewrite str_endswith_app_nl, str_drop_last_app_nl.
    split; [reflexivity | apply str_endswith_app_nl].
Qed.

Lemma shipped_line_strips_one_terminator_witness :
  str_join (_linebits (set_linebits [VStr "ab"; VStr (nl ++ nl)] init)) =
    Ret ("ab" ++ nl ++ nl) /\
  exists shipped,
    trace (snd (_shiplog quiet
                  (set_linebits [VStr "ab"; VStr (nl ++ nl)] init))) =
      [EvLog shipped false] /\
    shipped = "ab" ++ nl.
Proof.
  split; [reflexivity|].
  destruct (shipped_line_strips_one_terminator quiet
              (set_linebits [VStr "ab"; VStr (nl ++ nl)] init)
              ("ab" ++ nl ++ nl) eq_refl eq_refl)
    as (shipped & Ht & _ & _ & H2).
  - discriminate.
  - exists shipped. split; [exact Ht|]. exact (proj1 (H2 "ab" eq_refl)).
Defined.

(** ** When a flush empties the buffer *)

(** C3, as the class has it.  With the buffer joinable and the lock free,
    a flush is a no-op exactly when the joined text is empty (no piece, or
    only empty pieces), and then the pieces stay where they are.
    Otherwise the block under the lock yields the joined text and leaves
    the buffer empty with the lock still held, and after the flush the
    buffer is empty and the lock free. *)
Theorem shiplog_clears_nonempty_text
  (E : collaborators) (w : world) (line : string) :
  _lock w = false ->
  str_join (_linebits w) = Ret line ->
  (snd (_shiplog E w) = w <-> line = "") /\
  (line = "" -> _shiplog E w = (Ret tt, w)) /\
  (line <> "" ->
     fst (shiplog_locked (set_lock true w)) = Ret (Some line) /\
     _linebits (snd (shiplog_locked (set_lock true w))) = [] /\
     _lock (snd (shiplog_locked (set_lock true w))) = true /\
     _linebits (snd (_shiplog E w)) = [] /\
     _lock (snd (_shiplog E w)) = false).
Proof.
  intros Hl Hj.
  assert (Hidle : line = "" -> _shiplog E w = (Ret tt, w)).
  { intros ->. now apply shiplog_idle. }
  split; [split|split; [exact Hidle|]].
  - intros Hsame. destruct (string_dec line "") as [Hempty | Hne];
      [exact Hempty|].
    rewrite (shiplog_ships E w line Hl Hj Hne) in Hsame. simpl in Hsame.
    apply (f_equal (fun x => List.length (trace x))) in Hsame.
    simpl in Hsame. rewrite length_app in Hsame. simpl in Hsame. lia.
  - intros Hempty. now rewrite (Hidle Hempty).
  - intros Hne. unfold shiplog_locked. simpl. rewrite Hj.
    apply String.eqb_neq in Hne. rewrite Hne. simpl.
    apply String.eqb_neq in Hne.
    rewrite (shiplog_ships E w line Hl Hj Hne). simpl.
    repeat split. exact Hl.
Qed.

Lemma shiplog_clears_nonempty_text_witness :
  str_join (_linebits (set_linebits [VStr "a"; VStr "b"] init)) = Ret "ab" /\
  _linebits (snd (_shiplog quiet (set_linebits [VStr "a"; VStr "b"] init))) =
    [].
Proof.
  split; [reflexivity|].
  destruct (shiplog_clears_nonempty_text quiet
              (set_linebits [VStr "a"; VStr "b"] init) "ab" eq_refl eq_refl)
    as (_ & _ & H).
  destruct H as (_ & _ & _ & Hbits & _); [discriminate | exact Hbits].
Defined.

(** C3, as stated, fails: after [write("")] the buffer holds one piece,
    the empty string; the flush that the write pushed finds the buffer not
    empty, ships nothing, and leaves that piece in it. *)
Lemma shiplog_keeps_empty_pieces :
  _linebits (snd (write quiet (VStr "") init)) = [VStr ""] /\
  _linebits (snd (write quiet (VStr "") init)) <> [] /\
  _shiplog quiet (snd (write quiet (VStr "") init)) =
    (Ret tt, snd (write quiet (VStr "") init)) /\
  _linebits (snd (_shiplog quiet (snd (write quiet (VStr "") init)))) <> [].
Proof.
  repeat split; try reflexivity; discriminate.
Qed.

(** ** Flushing with nothing to ship *)

(** [write("")] itself never reaches the log sink, whatever the state. *)
Lemma write_empty_calls_no_log (E : collaborators) (w : world) :
  trace (snd (write E (VStr "") w)) = (trace w ++ [EvCall (VStr "")])%list /\
  log_calls (trace (snd (write E (VStr "") w))) = log_calls (trace w).
Proof.
  assert (Ht : trace (snd (write E (VStr "") w)) =
               (trace w ++ [EvCall (VStr "")])%list).
  { rewrite write_unfold. cbv zeta.
    destruct (call_raises E (VStr "")); [reflexivity|].
    destruct (_lock w); reflexivity. }
  split; [exact Ht|].
  rewrite Ht, log_calls_app. simpl. apply app_nil_r.
Qed.

(** C5.  With the lock free and no text accumulated (no piece at all, as
    after [__init__] or after a line went out, or only empty pieces), a
    flush returns normally, changes nothing and calls no sink, so a second
    flush does what the first did.  [write("")] there calls the log sink
    neither itself nor through the flush it pushes, however many pushed
    calls the owner thread then runs. *)
Theorem flush_of_empty_buffer_is_noop (E : collaborators) (w : world) :
  _lock w = false ->
  str_join (_linebits w) = Ret "" ->
  _shiplog E w = (Ret tt, w) /\
  _shiplog E (snd (_shiplog E w)) = _shiplog E w /\
  log_calls (trace (snd (write E (VStr "") w))) = log_calls (trace w) /\
  (forall n,
     log_calls (trace (drain E n (snd (write E (VStr "") w)))) =
     log_calls (trace w)).
Proof.
  intros Hl Hj.
  pose proof (shiplog_idle E w Hl Hj) as Hidle.
  split; [exact Hidle|]. split; [now rewrite Hidle|].
  assert (Hw : exists w',
             snd (write E (VStr "") w) = w' /\ _lock w' = false /\
             str_join (_linebits w') = Ret "" /\
             trace w' = (trace w ++ [EvCall (VStr "")])%list).
  { rewrite write_unfold, Hl. cbv zeta.
    destruct (call_raises E (VStr "")); simpl.
    - eexists. split; [reflexivity|]. simpl. auto.
    - eexists. split; [reflexivity|]. simpl.
      rewrite str_join_app, Hj. auto. }
  pose proof (proj2 (write_empty_calls_no_log E w)) as Hlog.
  split; [exact Hlog|].
  destruct Hw as (w' & Hw' & Hl' & Hj' & _). rewrite Hw' in *.
  intros n. rewrite drain_idle by assumption. exact Hlog.
Qed.

Lemma flush_of_empty_buffer_is_noop_witness :
  _linebits init = [] /\
  _shiplog quiet init = (Ret tt, init) /\
  log_calls (trace (drain quiet 1 (snd (write quiet (VStr "") init)))) = [].
Proof.
  destruct (flush_of_empty_buffer_is_noop quiet init eq_refl eq_refl)
    as (Hnoop & _ & _ & Hdrain).
  split; [reflexivity|]. split; [exact Hnoop | exact (Hdrain 1)].
Defined.

(** ** Pushed flushes *)

Lemma write_str_partial (E : collaborators) (w : world) (s : string) :
  sinks_return E -> _lock w = false -> str_endswith s nl = false ->
  write E (VStr s) w =
    (Ret tt,
     set_queue (queue w ++ [mkPushed true true])
       (set_linebits (_linebits w ++ [VStr s]) (emit (EvCall (VStr s)) w))).
Proof.
  intros [Hcall _] Hl Hs. rewrite write_unfold, Hcall, Hl. simpl.
  now rewrite Hs.
Qed.

(** A write that ends in a newline ships all that is pending, itself
    included, as one line. *)
Lemma write_str_line (E : collaborators) (w : world) (s p : string) :
  sinks_return E -> _lock w = false -> str_endswith s nl = true ->
  str_join (_linebits w) = Ret p ->
  write E (VStr s) w =
    (Ret tt,
     emit (EvLog (str_drop_last (p ++ s)) false)
       (set_linebits [] (emit (EvCall (VStr s)) w))).
Proof.
  intros [Hcall Hlog] Hl Hs Hj. rewrite write_unfold, Hcall, Hl. simpl.
  rewrite Hs.
  destruct (str_endswith_nl_inv s Hs) as [l ->].
  rewrite (shiplog_ships E _ (p ++ l ++ nl)).
  - rewrite <- Str.append_assoc, str_endswith_app_nl, Hlog. reflexivity.
  - exact Hl.
  - simpl. now rewrite str_join_app, Hj.
  - intros H. apply Str.append_eq_nil in H as [_ H].
    apply Str.append_eq_nil in H as [_ H]. discriminate.
Qed.

Lemma log_calls_passthrough (svals : list string) :
  log_calls (map (fun s => EvCall (VStr s)) svals) = [].
Proof. induction svals; simpl; auto. Qed.

Lemma writes_partial (E : collaborators) (svals : list string) :
  sinks_return E ->
  Forall (fun s => str_endswith s nl = false) svals ->
  forall w, _lock w = false ->
    writes E (map VStr svals) w =
      (Ret tt,
       {| _linebits := _linebits w ++ map VStr svals;
          _pending_ship := _pending_ship w;
          _lock := false;
          queue := queue w ++ repeat (mkPushed true true) (List.length svals);
          trace := trace w ++ map (fun s => EvCall (VStr s)) svals |}).
Proof.
  intros HE. induction 1 as [|s svals Hs _ IH]; intros w Hl; simpl.
  - unfold ret. rewrite !app_nil_r. destruct w; simpl in *; now subst.
  - unfold bind. rewrite write_str_partial by assumption.
    rewrite IH by exact Hl. simpl. rewrite <- !app_assoc. reflexivity.
Qed.

(** C2, as the class has it.  [_pending_ship] is set to [False] by
    [__init__] and neither read nor written after that, whatever is done
    with the object: every write that does not end in a newline pushes a
    flush of its own.  With sinks that return, from a state with the lock
    free, nothing pending and nothing pushed, [k] such writes in a row leave
    [k] pushed flushes and the flag as it was, and have shipped nothing;
    when the owner thread runs the [k] flushes, the first that finds text
    ships the whole concatenation as one line and the others do nothing. *)
Theorem partial_writes_push_a_flush_each
  (E : collaborators) (w : world) (svals : list string) :
  sinks_return E ->
  _lock w = false ->
  str_join (_linebits w) = Ret "" ->
  queue w = [] ->
  Forall (fun s => str_endswith s nl = false) svals ->
  (forall ops, _pending_ship (run E ops w) = _pending_ship w) /\
  fst (writes E (map VStr svals) w) = Ret tt /\
  queue (snd (writes E (map VStr svals) w)) =
    repeat (mkPushed true true) (List.length svals) /\
  _pending_ship (snd (writes E (map VStr svals) w)) = _pending_ship w /\
  log_calls (trace (snd (writes E (map VStr svals) w))) =
    log_calls (trace w) /\
  queue (drain E (List.length svals) (snd (writes E (map VStr svals) w))) =
    [] /\
  _pending_ship
    (drain E (List.length svals) (snd (writes E (map VStr svals) w))) =
    _pending_ship w /\
  log_calls
    (trace (drain E (List.length svals)
              (snd (writes E (map VStr svals) w)))) =
    (log_calls (trace w) ++
     (if String.eqb (cat svals) "" then [] else [(cat svals, false)]))%list.
Proof.
  intros HE Hl Hj Hq Hs.
  split; [intros ops; apply run_pending_ship|].
  rewrite (writes_partial E svals HE Hs w Hl). simpl. rewrite Hq. simpl.
  split; [reflexivity|]. split; [reflexivity|]. split; [reflexivity|].
  split; [rewrite log_calls_app, log_calls_passthrough; apply app_nil_r|].
  set (w1 := {| _linebits := _linebits w ++ map VStr svals;
                _pending_ship := _pending_ship w;
                _lock := false;
                queue := repeat (mkPushed true true) (List.length svals);
                trace := trace w ++ map (fun s => EvCall (VStr s)) svals |}).
  assert (Hj1 : str_join (_linebits w1) = Ret (cat svals))
    by (simpl; now rewrite (str_join_app_strs _ svals "" Hj)).
  assert (Hlog1 : log_calls (trace w1) = log_calls (trace w))
    by (simpl; rewrite log_calls_app, log_calls_passthrough;
        apply app_nil_r).
  destruct (String.eqb (cat svals) "") eqn:Hcat.
  - apply String.eqb_eq in Hcat. rewrite Hcat in Hj1.
    rewrite drain_idle by (reflexivity || assumption). simpl.
    rewrite skipn_all2 by (now rewrite repeat_length).
    rewrite app_nil_r. now rewrite <- Hlog1.
  - apply String.eqb_neq in Hcat.
    destruct svals as [|s svals']; [now destruct Hcat|].
    remember (s :: svals') as svals eqn:Hsv.
    replace (List.length svals) with (S (List.length svals'))
      by (subst svals; reflexivity).
    simpl drain. unfold run_pending.
    replace (queue w1)
      with (mkPushed true true
              :: repeat (mkPushed true true) (List.length svals'))
      by (subst w1 svals; reflexivity).
    rewrite (shiplog_ships E _ (cat svals)) by (reflexivity || assumption).
    rewrite (cat_not_endswith_nl svals Hs). simpl.
    rewrite drain_idle by reflexivity. simpl.
    rewrite skipn_all2 by (now rewrite repeat_length).
    split; [reflexivity|]. split; [reflexivity|].
    rewrite !log_calls_app, log_calls_passthrough. simpl.
    now rewrite app_nil_r.
Qed.

Lemma partial_writes_push_a_flush_each_witness :
  sinks_return quiet /\
  queue (snd (writes quiet (map VStr ["a"; "b"; "c"]) init)) =
    repeat (mkPushed true true) 3 /\
  log_calls (trace (drain quiet 3
                      (snd (writes quiet (map VStr ["a"; "b"; "c"]) init)))) =
    [("abc", false)].
Proof.
  destruct (partial_writes_push_a_flush_each quiet init ["a"; "b"; "c"]
              quiet_returns eq_refl eq_refl eq_refl)
    as (_ & _ & Hq & _ & _ & _ & _ & Hlog).
  - repeat constructor.
  - split; [exact quiet_returns|]. split; [exact Hq | exact Hlog].
Defined.

(** C2, as stated, fails: after [write("a"); write("b")] on a fresh
    object two flushes are pushed, not one, and the flag is still
    [False]. *)
Lemma partial_writes_push_two_flushes :
  queue (snd (writes quiet [VStr "a"; VStr "b"] init)) =
    [mkPushed true true; mkPushed true true] /\
  List.length (queue (snd (writes quiet [VStr "a"; VStr "b"] init))) = 2 /\
  _pending_ship (snd (write quiet (VStr "a") init)) = false /\
  _pending_ship (snd (writes quiet [VStr "a"; VStr "b"] init)) = false.
Proof.
  repeat split; reflexivity.
Qed.

(** ** Lines and segments *)

Lemma segments_nl_free (p : string) : has_nl p = false -> segments p = [].
Proof.
  induction p as [|c p IH]; simpl; [reflexivity|].
  intros H. apply orb_false_iff in H as [Hc Hp].
  now rewrite Hc, (IH Hp).
Qed.

Lemma segments_line (p s : string) :
  has_nl p = false -> segments (p ++ nl ++ s) = p :: segments s.
Proof.
  change (nl ++ s) with (String LF s).
  induction p as [|c p IH]; simpl; [reflexivity|].
  intros H. apply orb_false_iff in H as [Hc Hp].
  now rewrite Hc, (IH Hp).
Qed.

(** Writes whose newlines come last only: each complete segment of what
    was pending and written goes out as one line, and what follows the
    last newline stays pending. *)
Lemma writes_segments (E : collaborators) (svals : list string) :
  sinks_return E ->
  Forall (fun s => nl_only_last s = true) svals ->
  forall w p,
    _lock w = false -> str_join (_linebits w) = Ret p -> has_nl p = false ->
    exists p' pre,
      fst (writes E (map VStr svals) w) = Ret tt /\
      log_calls (trace (snd (writes E (map VStr svals) w))) =
        (log_calls (trace w) ++
         map (fun seg => (seg, false)) (segments (p ++ cat svals)))%list /\
      str_join (_linebits (snd (writes E (map VStr svals) w))) = Ret p' /\
      has_nl p' = false /\
      p ++ cat svals = pre ++ p'.
Proof.
  intros HE. induction 1 as [|s svals Hs _ IH]; intros w p Hl Hj Hp.
  - exists p, "". simpl. rewrite Str.append_nil_r, (segments_nl_free p Hp).
    simpl. rewrite app_nil_r. auto.
  - simpl writes. unfold bind. simpl cat.
    destruct (nl_only_last_cases s Hs) as [[Hend Hnl] | (l & -> & Hnl)].
    + rewrite write_str_partial by assumption.
      destruct (IH (set_queue (queue w ++ [mkPushed true true])
                      (set_linebits (_linebits w ++ [VStr s])
                         (emit (EvCall (VStr s)) w)))
                   (p ++ s))
        as (p' & pre & Hr & Hlog & Hj' & Hp' & Hcut).
      * exact Hl.
      * simpl. now rewrite str_join_app, Hj.
      * now rewrite has_nl_app, Hp, Hnl.
      * exists p', pre. rewrite Hr, Hlog, Hj'. simpl.
        rewrite log_calls_app. simpl. rewrite app_nil_r.
        rewrite <- Hcut, Str.append_assoc. auto.
    + rewrite (write_str_line E w (l ++ nl) p HE Hl
                 (str_endswith_app_nl l) Hj).
      destruct (IH (emit (EvLog (str_drop_last (p ++ l ++ nl)) false)
                      (set_linebits [] (emit (EvCall (VStr (l ++ nl))) w)))
                   "")
        as (p' & pre & Hr & Hlog & Hj' & Hp' & Hcut);
        [exact Hl | reflexivity | reflexivity |].
      exists p', ((p ++ l ++ nl) ++ pre). rewrite Hr, Hlog, Hj'. simpl.
      rewrite !log_calls_app. simpl. rewrite app_nil_r.
      rewrite <- (Str.append_assoc p l nl), str_drop_last_app_nl.
      simpl in Hcut.
      replace (p ++ (l ++ nl) ++ cat svals)
        with ((p ++ l) ++ nl ++ cat svals)
        by (now rewrite !Str.append_assoc).
      rewrite segments_line by (now rewrite has_nl_app, Hp, Hnl).
      simpl. rewrite <- app_assoc. simpl.
      repeat split; try assumption; try reflexivity.
      rewrite Hcut, !Str.append_assoc. reflexivity.
Qed.

(** C1, as the class has it.  A line goes out when a write ends in a
    newline, and it is everything pending, newlines inside it included.
    So for writes made in a row, nothing in between, on a state with the
    lock free and no text pending, with sinks that return: when each text
    has no newline but possibly its last character, and the concatenation
    ends in a newline, the writes end normally, the log sink has received
    one line for each newline-delimited segment of the concatenation, in
    order, each without its newline, and no text is left pending.  A
    single write of any text that ends in a newline, newlines inside it or
    not, sends one line: the text without its last character. *)
Theorem one_log_line_per_segment
  (E : collaborators) (w : world) (svals : list string) :
  sinks_return E ->
  _lock w = false ->
  str_join (_linebits w) = Ret "" ->
  Forall (fun s => nl_only_last s = true) svals ->
  str_endswith (cat svals) nl = true ->
  fst (writes E (map VStr svals) w) = Ret tt /\
  log_calls (trace (snd (writes E (map VStr svals) w))) =
    (log_calls (trace w) ++
     map (fun seg => (seg, false)) (segments (cat svals)))%list /\
  str_join (_linebits (snd (writes E (map VStr svals) w))) = Ret "" /\
  (forall s, str_endswith s nl = true ->
     log_calls (trace (snd (write E (VStr s) w))) =
       (log_calls (trace w) ++ [(str_drop_last s, false)])%list).
Proof.
  intros HE Hl Hj Hs Hend.
  destruct (writes_segments E svals HE Hs w "" Hl Hj eq_refl)
    as (p' & pre & Hr & Hlog & Hj' & Hp' & Hcut).
  simpl in Hlog, Hcut.
  split; [exact Hr|]. split; [exact Hlog|]. split.
  - rewrite Hj'. f_equal.
    destruct (string_dec p' "") as [Hempty | Hne]; [exact Hempty|].
    rewrite Hcut, (str_endswith_app pre p' Hne) in Hend.
    rewrite (str_endswith_nl_free p' Hp') in Hend. discriminate.
  - intros s Hsn. rewrite (write_str_line E w s "" HE Hl Hsn Hj). simpl.
    rewrite !log_calls_app. simpl. now rewrite app_nil_r.
Qed.

Lemma one_log_line_per_segment_witness :
  sinks_return quiet /\
  str_endswith (cat ["a"; "b" ++ nl; ""; "c" ++ nl]) nl = true /\
  log_calls (trace (snd (writes quiet
                           (map VStr ["a"; "b" ++ nl; ""; "c" ++ nl])
                           init))) =
    [("ab", false); ("c", false)].
Proof.
  destruct (one_log_line_per_segment quiet init
              ["a"; "b" ++ nl; ""; "c" ++ nl]
              quiet_returns eq_refl eq_refl)
    as (_ & Hlog & _ & _).
  - repeat constructor.
  - reflexivity.
  - split; [exact quiet_returns|]. split; [reflexivity | exact Hlog].
Defined.

(** C1, as stated, fails: one write of ["a\nb\n"] has two segments, ["a"]
    and ["b"], and the log sink receives one line, ["a\nb"]. *)
Lemma interior_newline_ships_one_line :
  str_endswith (cat ["a" ++ nl ++ "b" ++ nl]) nl = true /\
  segments (cat ["a" ++ nl ++ "b" ++ nl]) = ["a"; "b"] /\
  log_calls (trace (snd (writes quiet [VStr ("a" ++ nl ++ "b" ++ nl)] init))) =
    [("a" ++ nl ++ "b", false)] /\
  log_calls (trace (snd (writes quiet [VStr ("a" ++ nl ++ "b" ++ nl)] init)))
    <> map (fun seg => (seg, false))
         (segments (cat ["a" ++ nl ++ "b" ++ nl])).
Proof.
  repeat split; try reflexivity. discriminate.
Qed.

(** A pushed flush that the owner thread runs between two writes cuts
    the line there: ["a"] and ["b"] go out for the one segment ["ab"]. *)
Example pushed_flush_cuts_a_line :
  log_calls (trace (run quiet
                      [OpWrite (VStr "a"); OpRunPending;
                       OpWrite (VStr ("b" ++ nl))]
                      init)) =
    [("a", false); ("b", false)].
Proof. reflexivity. Qed.

(** * Further properties of the redirect *)

Lemma cat_snoc (xs : list string) (s : string) :
  cat (xs ++ [s]) = cat xs ++ s.
Proof.
  induction xs as [|x xs IH]; simpl.
  - apply Str.append_nil_r.
  - now rewrite IH, Str.append_assoc.
Qed.

Lemma run_snoc (E : collaborators) (ops : list op) (o : op) (w : world) :
  run E (ops ++ [o]) w = step E o (run E ops w).
Proof. unfold run. now rewrite fold_left_app. Qed.

Lemma str_join_raises_type_error (bits : list pyval) (e : exn) :
  str_join bits = Raise e -> e = TypeError.
Proof.
  induction bits as [|[s| | |] bits IH]; simpl; try congruence.
  destruct (str_join bits); try congruence.
  intros H. injection H as <-. now apply IH.
Qed.

Lemma str_join_never_blocks (bits : list pyval) : str_join bits <> Blocked.
Proof.
  induction bits as [|[s| | |] bits IH]; simpl; try discriminate.
  destruct (str_join bits); [discriminate | discriminate | contradiction].
Qed.

Lemma str_join_app_raise (bits : list pyval) (v : pyval) (e : exn) :
  str_join bits = Raise e -> str_join (bits ++ [v]) = Raise TypeError.
Proof.
  revert e. induction bits as [|[s| | |] bits IH]; intros e; simpl;
    try congruence.
  destruct (str_join bits) as [t|e'|]; try congruence.
  intros _. now rewrite (IH e' eq_refl).
Qed.

Lemma shiplog_queue (E : collaborators) (w : world) :
  queue (snd (_shiplog E w)) = queue w.
Proof.
  rewrite shiplog_unfold. destruct (_lock w); [reflexivity|].
  destruct (str_join (_linebits w)) as [line|e|]; try reflexivity.
  destruct (String.eqb line ""); reflexivity.
Qed.

(** ** The lock *)


(** ** A second flush *)

(** X2.  In every state and whatever the sinks do, a flush that follows
    a flush changes nothing: it ships no line and leaves buffer, queue and
    lock as the first flush left them. *)
Theorem second_flush_changes_nothing (E : collaborators) (w : world) :
  snd (_shiplog E (snd (_shiplog E w))) = snd (_shiplog E w).
Proof.
  rewrite (shiplog_unfold E w).
  destruct (_lock w) eqn:Hl.
  { simpl. rewrite shiplog_unfold, Hl. reflexivity. }
  destruct (str_join (_linebits w)) as [line|e|] eqn:Hj.
  - destruct (String.eqb line "") eqn:Hline; simpl.
    + rewrite shiplog_unfold, Hl, Hj, Hline. reflexivity.
    + rewrite shiplog_unfold. simpl. rewrite Hl. reflexivity.
  - simpl. rewrite shiplog_unfold, Hl, Hj. reflexivity.
  - simpl. rewrite shiplog_unfold, Hl, Hj. reflexivity.
Qed.

(** ** What the passthrough sees *)

(** X3.  Over any sequence of calls from creation on, with sinks that
    return or raise and the log path working or failing, the passthrough
    sink has been called once for each [write], in order, with the very
    value written. *)
Theorem passthrough_sees_every_write (E : collaborators) (ops : list op) :
  passthrough_calls (trace (run E ops init)) = values_written ops.
Proof.
  assert (Hval : forall l o,
             values_written (l ++ [o]) =
             (values_written l ++ values_written [o])%list).
  { intros l o. induction l as [|[v| | |] l IH]; simpl; rewrite ?IH;
      reflexivity. }
  induction ops as [|o ops IH] using rev_ind; [reflexivity|].
  rewrite run_snoc, Hval, <- IH.
  destruct o as [sval| | |]; simpl.
  - destruct (write_trace E sval (run E ops init)) as (new & -> & Hnew).
    rewrite passthrough_calls_app. simpl.
    now destruct Hnew as [-> | [line ->]].
  - rewrite passthrough_calls_app. reflexivity.
  - rewrite passthrough_calls_app. reflexivity.
  - destruct (run_pending_trace E (run E ops init)) as (new & -> & Hnew).
    rewrite passthrough_calls_app.
    now destruct Hnew as [-> | [line ->]].
Qed.

(** ** What is pushed *)

(** X4.  Every call the object has pushed and the owner thread has not
    run yet was pushed with [from_other_thread=True] and
    [suppress_other_thread_warning=True]. *)
Theorem pushed_calls_are_flagged (E : collaborators) (ops : list op) :
  Forall (fun c => c = mkPushed true true) (queue (run E ops init)).
Proof.
  assert (Htl : forall A (P : A -> Prop) (x : A) (q : list A),
             Forall P (x :: q) -> Forall P q)
    by (intros A P x q H; now inversion H).
  induction ops as [|o ops IH] using rev_ind; [constructor|].
  rewrite run_snoc. set (w := run E ops init) in *.
  destruct o as [sval| | |]; simpl; try exact IH.
  - rewrite write_unfold. cbv zeta.
    destruct (call_raises E sval); [exact IH|].
    destruct (_lock w); [exact IH|].
    destruct (py_endswith_nl sval) as [[|]|e|]; try exact IH.
    + rewrite shiplog_queue. exact IH.
    + simpl. apply Forall_app. split; [exact IH | now repeat constructor].
  - unfold run_pending. destruct (queue w) as [|c q] eqn:Hq.
    + simpl. rewrite Hq. constructor.
    + rewrite shiplog_queue. simpl. now apply (Htl _ _ c).
Qed.

(** ** After a value that is not a [str] *)

Lemma step_poisoned (E : collaborators) (o : op) (w : world) (e : exn) :
  str_join (_linebits w) = Raise e ->
  str_join (_linebits (step E o w)) = Raise TypeError /\
  log_calls (trace (step E o w)) = log_calls (trace w).
Proof.
  intros Hj.
  pose proof (str_join_raises_type_error _ _ Hj) as ->.
  assert (Hship : forall w', str_join (_linebits w') = Raise TypeError ->
                             snd (_shiplog E w') = w').
  { intros w' Hw'. rewrite shiplog_unfold, Hw'. now destruct (_lock w'). }
  assert (Hlog : forall ev, log_calls (trace w ++ [EvCall ev]) =
                            log_calls (trace w))
    by (intros ev; rewrite log_calls_app; apply app_nil_r).
  destruct o as [sval| | |]; simpl.
  - rewrite write_unfold. cbv zeta.
    destruct (call_raises E sval); [simpl; auto|].
    destruct (_lock w); [simpl; auto|].
    pose proof (str_join_app_raise _ sval _ Hj) as Hj1.
    destruct (py_endswith_nl sval) as [[|]|e|]; try (simpl; auto).
    rewrite Hship by exact Hj1. simpl. auto.
  - rewrite log_calls_app. simpl. rewrite app_nil_r. auto.
  - rewrite log_calls_app. simpl. rewrite app_nil_r. auto.
  - unfold run_pending. destruct (queue w); [auto|].
    rewrite Hship by exact Hj. auto.
Qed.

(** X5.  Once a value that is not a [str] has been written (the
    passthrough returning, the lock free), it stays in the buffer for
    good: whatever calls follow, no further line reaches the log sink, and
    every later [write] of a text ending in a newline that the passthrough
    accepts raises [TypeError]. *)
Theorem non_string_write_silences_the_log
  (E : collaborators) (w : world) (sval : pyval) (ops : list op) :
  (forall s, sval <> VStr s) ->
  call_raises E sval = None ->
  _lock w = false ->
  log_calls (trace (run E ops (snd (write E sval w)))) =
    log_calls (trace w) /\
  (forall text,
     str_endswith text nl = true ->
     call_raises E (VStr text) = None ->
     fst (write E (VStr text) (run E ops (snd (write E sval w)))) =
       Raise TypeError).
Proof.
  intros Hv Hcall Hl.
  assert (H0 : str_join (_linebits (snd (write E sval w))) = Raise TypeError
               /\ log_calls (trace (snd (write E sval w))) =
                  log_calls (trace w)
               /\ _lock (snd (write E sval w)) = false).
  { rewrite write_lock. split; [|split; [|exact Hl]].
    - destruct (str_join_non_str (_linebits w) sval Hv) as [e He].
      pose proof (str_join_raises_type_error _ _ He) as ->.
      rewrite write_unfold, Hcall, Hl. cbv zeta.
      destruct sval as [s| | |]; simpl; try exact He. now destruct (Hv s).
    - destruct (write_trace E sval w) as (new & Ht & Hnew).
      rewrite write_unfold, Hcall, Hl in *. cbv zeta in *.
      destruct sval as [s| | |]; simpl in *;
        try (rewrite log_calls_app; apply app_nil_r).
      now destruct (Hv s). }
  destruct H0 as (Hj0 & Hlog0 & Hl0).
  set (w0 := snd (write E sval w)) in *.
  assert (Hrun : str_join (_linebits (run E ops w0)) = Raise TypeError /\
                 log_calls (trace (run E ops w0)) = log_calls (trace w) /\
                 _lock (run E ops w0) = false).
  { induction ops as [|o ops IH] using rev_ind; [auto|].
    destruct IH as (Hj & Hlog & Hlk). rewrite run_snoc.
    destruct (step_poisoned E o _ _ Hj) as (Hj' & Hlog').
    rewrite step_lock. split; [exact Hj' | split; [congruence | exact Hlk]]. }
  destruct Hrun as (Hj & Hlog & Hlk).
  split; [exact Hlog|].
  intros text Hend Hcall'.
  rewrite write_unfold, Hcall', Hlk. simpl. rewrite Hend.
  rewrite shiplog_unfold. simpl. rewrite Hlk.
  now rewrite (str_join_app_raise _ (VStr text) _ Hj).
Qed.

Lemma non_string_write_silences_the_log_witness :
  call_raises quiet (VInt 3) = None /\
  log_calls (trace (run quiet [OpWrite (VStr ("a" ++ nl)); OpRunPending]
                      (snd (write quiet (VInt 3) init)))) = [] /\
  fst (write quiet (VStr ("b" ++ nl))
         (run quiet [OpWrite (VStr ("a" ++ nl)); OpRunPending]
            (snd (write quiet (VInt 3) init)))) = Raise TypeError.
Proof.
  destruct (non_string_write_silences_the_log quiet init (VInt 3)
              [OpWrite (VStr ("a" ++ nl)); OpRunPending])
    as (Hlog & Hraise); try reflexivity.
  - intros s. discriminate.
  - split; [reflexivity|]. split; [exact Hlog|].
    apply Hraise; reflexivity.
Defined.

(** ** Nothing is lost, nothing is shipped twice *)

Lemma shiplog_conserved (E : collaborators) (written : string) (w : world) :
  _lock w = false -> conserved written w ->
  conserved written (snd (_shiplog E w)).
Proof.
  intros Hl (raw & p & Hj & Hraw & Hw).
  rewrite shiplog_unfold, Hl, Hj.
  destruct (String.eqb p "") eqn:Hp; [now exists raw, p|].
  exists (raw ++ [p])%list, "". simpl. split; [reflexivity|]. split.
  - rewrite log_calls_app, map_app. simpl.
    apply Forall2_app; [exact Hraw|]. constructor; [|constructor].
    destruct (str_endswith p nl) eqn:Hend; [right | now left].
    apply str_endswith_nl_inv in Hend as [l ->].
    now rewrite str_drop_last_app_nl.
  - now rewrite cat_snoc, Str.append_nil_r.
Qed.

Lemma conserved_frame (written : string) (w w' : world) :
  _linebits w' = _linebits w ->
  log_calls (trace w') = log_calls (trace w) ->
  conserved written w -> conserved written w'.
Proof.
  intros Hb Ht (raw & p & Hj & Hraw & Hw). exists raw, p.
  now rewrite Hb, Ht.
Qed.

Lemma step_conserved (E : collaborators) (o : op) (written : string)
  (w : world) :
  (forall v, call_raises E v = None) ->
  _lock w = false -> str_op o = true -> conserved written w ->
  conserved (written ++ cat (texts_written [o])) (step E o w).
Proof.
  intros Hcall Hl Ho Hc.
  destruct o as [[s| | |]| | |]; simpl in *; try discriminate;
    rewrite ?Str.append_nil_r.
  - rewrite write_unfold, Hcall, Hl. cbv zeta.
    assert (Hc1 : conserved (written ++ s)
                    (set_linebits (_linebits w ++ [VStr s])
                       (emit (EvCall (VStr s)) w))).
    { destruct Hc as (raw & p & Hj & Hraw & Hw). exists raw, (p ++ s).
      simpl. rewrite str_join_app, Hj, log_calls_app. simpl.
      rewrite app_nil_r. subst written.
      now rewrite Str.append_assoc. }
    simpl. destruct (str_endswith s nl).
    + now apply shiplog_conserved.
    + now apply (conserved_frame _ _ _ eq_refl eq_refl Hc1).
  - apply (conserved_frame _ w); simpl; [reflexivity | | exact Hc].
    rewrite log_calls_app. apply app_nil_r.
  - apply (conserved_frame _ w); simpl; [reflexivity | | exact Hc].
    rewrite log_calls_app. apply app_nil_r.
  - unfold run_pending. destruct (queue w) as [|c q]; [exact Hc|].
    apply shiplog_conserved; [exact Hl|].
    now apply (conserved_frame _ w).
Qed.

(** X6.  For writes of texts, flushes, [isatty] calls and pushed calls
    run by the owner thread, in any order from creation on, with a
    passthrough that returns (the log sink may raise): the texts written,
    put end to end, are the lines handed to the log sink, in order, each
    followed by the one newline it lost or by nothing, and then the text
    still pending.  No character is dropped, shipped twice or reordered. *)
Theorem no_text_lost_or_shipped_twice (E : collaborators) (ops : list op) :
  (forall v, call_raises E v = None) ->
  forallb str_op ops = true ->
  exists raw p,
    str_join (_linebits (run E ops init)) = Ret p /\
    Forall2 shipped_from raw
      (map fst (log_calls (trace (run E ops init)))) /\
    cat (texts_written ops) = cat raw ++ p.
Proof.
  intros Hcall Hops.
  change (conserved (cat (texts_written ops)) (run E ops init)).
  induction ops as [|o ops IH] using rev_ind.
  - exists [], "". simpl. repeat split. constructor.
  - rewrite forallb_app in Hops. apply andb_true_iff in Hops as [Hops Ho].
    simpl in Ho. rewrite andb_true_r in Ho.
    rewrite run_snoc.
    replace (cat (texts_written (ops ++ [o])))
      with (cat (texts_written ops) ++ cat (texts_written [o])).
    + apply step_conserved; auto. apply run_lock_free.
    + clear. induction ops as [|[[s| | |]| | |] ops IH]; simpl;
        rewrite <- ?IH, ?Str.append_assoc; reflexivity.
Qed.

Lemma no_text_lost_or_shipped_twice_witness :
  exists raw p,
    str_join (_linebits (run quiet
                           [OpWrite (VStr "a"); OpRunPending;
                            OpWrite (VStr ("b" ++ nl)); OpWrite (VStr "c")]
                           init)) = Ret p /\
    Forall2 shipped_from raw
      (map fst (log_calls (trace (run quiet
                           [OpWrite (VStr "a"); OpRunPending;
                            OpWrite (VStr ("b" ++ nl)); OpWrite (VStr "c")]
                           init)))) /\
    "a" ++ ("b" ++ nl) ++ "c" = cat raw ++ p.
Proof.
  destruct (no_text_lost_or_shipped_twice quiet
              [OpWrite (VStr "a"); OpRunPending;
               OpWrite (VStr ("b" ++ nl)); OpWrite (VStr "c")])
    as (raw & p & Hj & Hraw & Hcat); try reflexivity.
  exists raw, p. split; [exact Hj|]. split; [exact Hraw|].
  simpl in Hcat. rewrite <- Hcat. reflexivity.
Defined.

(** ** Pending text always has a flush waiting *)

Lemma shiplog_empties (E : collaborators) (w : world) (p : string) :
  _lock w = false -> str_join (_linebits w) = Ret p ->
  str_join (_linebits (snd (_shiplog E w))) = Ret "".
Proof.
  intros Hl Hj. rewrite shiplog_unfold, Hl, Hj.
  destruct (String.eqb p "") eqn:Hp; [|reflexivity].
  apply String.eqb_eq in Hp. simpl. now rewrite Hj, Hp.
Qed.

Lemma step_settled (E : collaborators) (o : op) (w : world) :
  _lock w = false -> str_op o = true -> settled w -> settled (step E o w).
Proof.
  intros Hl Ho (p & Hj & Hp).
  destruct o as [[s| | |]| | |]; simpl in *; try discriminate.
  - rewrite write_unfold, Hl. cbv zeta.
    destruct (call_raises E (VStr s)); [now exists p|]. simpl.
    destruct (str_endswith s nl).
    + exists "". split; [|now left].
      apply (shiplog_empties E _ (p ++ s)); [exact Hl|].
      simpl. now rewrite str_join_app, Hj.
    + exists (p ++ s). simpl. rewrite str_join_app, Hj.
      split; [reflexivity | right]. now destruct (queue w).
  - now exists p.
  - now exists p.
  - unfold run_pending. destruct (queue w) as [|c q] eqn:Hq.
    + exists p. simpl. rewrite Hq. auto.
    + exists "". split; [|now left].
      now apply (shiplog_empties E _ p).
Qed.

(** X7.  After any sequence of writes of texts, flushes, [isatty] calls
    and pushed calls run, whatever the sinks do: once the owner thread has
    run the pushed calls that are waiting, no text is pending and none of
    them is left.  Text never sits in the buffer without a flush on its
    way. *)
Theorem pushed_flushes_leave_nothing_pending
  (E : collaborators) (ops : list op) :
  forallb str_op ops = true ->
  str_join
    (_linebits (drain E (List.length (queue (run E ops init)))
                  (run E ops init))) = Ret "" /\
  queue (drain E (List.length (queue (run E ops init))) (run E ops init)) =
    [].
Proof.
  intros Hops.
  assert (Hset : settled (run E ops init)).
  { induction ops as [|o ops IH] using rev_ind.
    - exists "". split; [reflexivity | now left].
    - rewrite forallb_app in Hops. apply andb_true_iff in Hops as [Hops Ho].
      simpl in Ho. rewrite andb_true_r in Ho. rewrite run_snoc.
      apply step_settled; auto. apply run_lock_free. }
  pose proof (run_lock_free E ops) as Hl.
  set (w := run E ops init) in *.
  destruct Hset as (p & Hj & Hp).
  destruct (queue w) as [|c q] eqn:Hq.
  - simpl. rewrite Hq. destruct Hp as [-> | Hne]; [auto | now destruct Hne].
  - simpl. unfold run_pending. rewrite Hq.
    pose proof (shiplog_empties E (set_queue q w) p Hl Hj) as Hj'.
    rewrite drain_idle; [| now rewrite shiplog_lock | exact Hj'].
    simpl. rewrite shiplog_queue. simpl.
    split; [exact Hj' | apply skipn_all].
Qed.

Lemma pushed_flushes_leave_nothing_pending_witness :
  str_join
    (_linebits (drain quiet
                  (List.length (queue (run quiet
                     [OpWrite (VStr "a"); OpWrite (VStr "b")] init)))
                  (run quiet [OpWrite (VStr "a"); OpWrite (VStr "b")] init)))
  = Ret "".
Proof.
  exact (proj1 (pushed_flushes_leave_nothing_pending quiet
                  [OpWrite (VStr "a"); OpWrite (VStr "b")] eq_refl)).
Defined.

(** ** [print] through the redirect *)

Lemma writes_app (E : collaborators) (xs ys : list pyval) (w : world) :
  writes E (xs ++ ys) w =
    match writes E xs w with
    | (Ret _, w') => writes E ys w'
    | other => other
    end.
Proof.
  revert w. induction xs as [|x xs IH]; intros w; simpl; [reflexivity|].
  unfold bind. destruct (write E x w) as [[[]|e|] w']; [apply IH | auto..].
Qed.

Lemma print_pieces_partial (args : list string) :
  Forall (fun a => str_endswith a nl = false) args ->
  Forall (fun s => str_endswith s nl = false) (print_pieces args).
Proof.
  induction 1 as [|a args Ha Hargs IH]; [constructor|].
  simpl. destruct args as [|b args]; repeat constructor; assumption.
Qed.

Lemma cat_print_pieces (args : list string) :
  cat (print_pieces args) = join_spaces args.
Proof.
  unfold join_spaces.
  induction args as [|a args IH]; [reflexivity|].
  destruct args as [|b args]; [apply Str.append_nil_r|].
  change (a ++ " " ++ cat (print_pieces (b :: args)) =
          a ++ " " ++ String.concat " " (b :: args)).
  now rewrite IH.
Qed.

(** X8.  [print(a, b, ...)] of objects none of whose [str] ends in a
    newline, on a state with the lock free and no text pending and with
    sinks that return, ends normally and ships exactly one log line, the
    objects' [str]s joined by single spaces, and leaves no text pending:
    the pieces [print] writes one by one reach the log as one entry. *)
Theorem print_ships_one_entry
  (E : collaborators) (w : world) (args : list string) :
  sinks_return E ->
  _lock w = false ->
  str_join (_linebits w) = Ret "" ->
  Forall (fun a => str_endswith a nl = false) args ->
  fst (print E args w) = Ret tt /\
  log_calls (trace (snd (print E args w))) =
    (log_calls (trace w) ++ [(join_spaces args, false)])%list /\
  passthrough_calls (trace (snd (print E args w))) =
    (passthrough_calls (trace w) ++
     map VStr (print_pieces args ++ [nl]))%list /\
  str_join (_linebits (snd (print E args w))) = Ret "".
Proof.
  intros HE Hl Hj Hargs. unfold print.
  rewrite map_app, writes_app.
  rewrite (writes_partial E _ HE (print_pieces_partial args Hargs) w Hl).
  simpl writes. unfold bind.
  rewrite (write_str_line E _ nl (cat (print_pieces args)) HE);
    [| reflexivity | reflexivity
     | simpl; now rewrite (str_join_app_strs _ _ "" Hj)].
  simpl. rewrite str_drop_last_app_nl, cat_print_pieces.
  split; [reflexivity|]. split; [|split; [|reflexivity]].
  - rewrite !log_calls_app, log_calls_passthrough. simpl.
    now rewrite !app_nil_r.
  - rewrite !passthrough_calls_app. simpl.
    rewrite app_nil_r, <- app_assoc. f_equal. f_equal.
    clear. induction (print_pieces args) as [|s l IH]; simpl;
      [reflexivity | now rewrite IH].
Qed.

Lemma print_ships_one_entry_witness :
  sinks_return quiet /\
  log_calls (trace (snd (print quiet ["foo"; "123"; "bar"] init))) =
    [("foo 123 bar", false)].
Proof.
  destruct (print_ships_one_entry quiet init ["foo"; "123"; "bar"]
              quiet_returns eq_refl eq_refl) as (_ & Hlog & _).
  - repeat constructor.
  - split; [exact quiet_returns | exact Hlog].
Defined.

(** ** The module search path *)

(** X9.  After the bootstrap's changes to [sys.path] an import is served
    from the user directory when that provides the module; otherwise from
    the entry that served it before, when there was one; and from the
    bundled directories, the app's before its site packages, only when
    neither does.  User mods win, and bundled modules never shadow what
    was already on the path. *)
Theorem sys_path_search_order
  (env : ba_env) (path : list string) (provides : string -> bool) :
  served_from provides (setup_sys_path env path) =
    if provides (python_directory_user env)
    then Some (python_directory_user env)
    else match served_from provides path with
         | Some d => Some d
         | None =>
             served_from provides
               [python_directory_app env; python_directory_app_site env]
         end.
Proof.
  unfold served_from, setup_sys_path. cbv zeta. simpl.
  destruct (provides (python_directory_user env)); [reflexivity|].
  rewrite <- app_assoc. simpl.
  induction path as [|d path IH]; simpl; [reflexivity|].
  destruct (provides d); [reflexivity | exact IH].
Qed.

(** * Building Python: which modules are disabled *)

Lemma not_in_by_eqb (m : string) (l : list string) :
  existsb (String.eqb m) l = false -> ~ In m l.
Proof.
  intros H Hin. assert (Ht : existsb (String.eqb m) l = true).
  { apply existsb_exists. exists m. split; [exact Hin|].
    apply String.eqb_refl. }
  congruence.
Qed.

(** With a [replace_one] that succeeds, the loop over [enables] takes from
    the module list what it takes with any other that succeeds. *)
Lemma enable_loop_removes
  (replace_one : string -> string -> string -> PyBuild.result string) :
  (forall t old new, exists t', replace_one t old new = PyBuild.Ok t') ->
  forall ens ftxt ftxt0 cmods ftxt0' cmods',
    PyBuild.enable_loop (fun t _ _ => PyBuild.Ok t) ens ftxt0 cmods =
      PyBuild.Ok (ftxt0', cmods') ->
    exists ftxt',
      PyBuild.enable_loop replace_one ens ftxt cmods =
        PyBuild.Ok (ftxt', cmods').
Proof.
  intros Hrep ens.
  induction ens as [|enable ens IH]; intros ftxt ftxt0 cmods ftxt0' cmods' H.
  - simpl in *. injection H as _ <-. now exists ftxt.
  - cbn [PyBuild.enable_loop] in *.
    destruct (Hrep ftxt ("#" ++ enable ++ " ") (enable ++ " ")) as [t' ->].
    unfold PyBuild.rbind in *.
    destruct (PyBuild.list_remove enable cmods) as [cmods1|e];
      [|discriminate].
    now apply (IH t' ftxt0 cmods1 ftxt0' cmods').
Qed.



(** * Building Python: where [gather] looks *)

(** X11.  For a debug or a release build alike, [gather] takes each
    platform from the directory the build made: for an [arch] that
    [build_apple] has a make target for, [Python-<os>], from
    [build/<os>] under [build_apple]'s [builddir]; for each Android arch
    from [build] and from the Python source's [Android/sysroot] under
    [build_android]'s [builddir]. *)
Theorem gather_looks_where_builds_are (debug : bool) :
  (forall arch target,
     PyBuild.apple_make_target arch = PyBuild.Ok target ->
     exists os,
       target = "Python-" ++ os /\
       PyBuild.dict_get
         (PyBuild.bases (if debug then "debug" else "release")) arch =
         PyBuild.Ok
           (PyBuild.build_apple_builddir arch debug ++ "/build/" ++ os)) /\
  (forall arch,
     In arch ["arm"; "arm64"; "x86"; "x86_64"] ->
     PyBuild.dict_get
       (PyBuild.bases (if debug then "debug" else "release"))
       ("android_" ++ arch) =
       PyBuild.Ok (PyBuild.build_android_builddir arch debug ++ "/build") /\
     PyBuild.dict_get
       (PyBuild.bases2 (if debug then "debug" else "release"))
       ("android_" ++ arch) =
       PyBuild.Ok
         (PyBuild.build_android_builddir arch debug
          ++ "/src/Python-3.9.10/Android/sysroot")).
Proof.
  split.
  - intros arch target H.
    unfold PyBuild.apple_make_target, PyBuild.dict_get in H.
    destruct (String.eqb "mac" arch) eqn:Hmac.
    { apply String.eqb_eq in Hmac. subst arch. injection H as <-.
      exists "macOS". now destruct debug. }
    destruct (String.eqb "ios" arch) eqn:Hios.
    { apply String.eqb_eq in Hios. subst arch. injection H as <-.
      exists "iOS". now destruct debug. }
    destruct (String.eqb "tvos" arch) eqn:Htvos; [|discriminate].
    apply String.eqb_eq in Htvos. subst arch. injection H as <-.
    exists "tvOS". now destruct debug.
  - intros arch Harch. simpl in Harch.
    destruct Harch as [<- | [<- | [<- | [<- | []]]]];
      destruct debug; split; reflexivity.
Qed.

Lemma gather_looks_where_builds_are_witness :
  PyBuild.dict_get (PyBuild.bases "debug") "ios" =
    PyBuild.Ok "build/python_apple_ios_debug/build/iOS" /\
  PyBuild.dict_get (PyBuild.bases2 "release") "android_arm64" =
    PyBuild.Ok
      "build/python_android_arm64/src/Python-3.9.10/Android/sysroot".
Proof.
  split.
  - destruct (proj1 (gather_looks_where_builds_are true) "ios" "Python-iOS"
                eq_refl) as (os & Hos & Hget).
    injection Hos as <-. exact Hget.
  - refine (proj2 (proj2 (gather_looks_where_builds_are false) "arm64" _)).
    simpl. auto.
Defined.
